(** * vibechess: the match execution engine

    A shallow embedding of the Python back end of vibechess:
    - [Py]: the bits of Python string semantics the code relies on
      ([str.strip], truthiness, [str()] of an optional string);
    - [Re]: a backtracking matcher with the semantics of Python's [re]
      for the constructs the code's patterns use;
    - [LLM]: [llm_service.py] ([parse_chess_response], [call_claude_cli]);
    - [Chess]: the parts of python-chess the engine calls
      ([Board.parse_san], [parse_uci], [san], [push], [outcome], ...);
    - [Engine]: [game_engine.py] ([validate_and_get_move], [run_game]);
    - [SSE]: [sse_manager.py];
    - [Api]: the HTTP handlers of [main.py];
    - [EngineFacts], [ParserFacts], [SSEFacts]: properties of the engine,
      the response parser and the event bus;
    - [Runs]: the code evaluated on concrete games;
    - [ApiFacts], [EngineMoreFacts], [SSEMoreFacts], [ParserMoreFacts]:
      further properties of the handlers, the engine, the event bus and
      the parser, over the notions of [ApiProps], [EngineProps],
      [SSEProps] and [ParserProps].

    Texts are modelled over ASCII. *)

From Stdlib Require Import String Ascii List Bool Arith ZArith Lia.
From stdpp Require Import base gmap strings list sorting.

Import ListNotations.
Open Scope string_scope.

(* ------------------------------------------------------------------ *)
(** ** Python string helpers *)

Module Py.

Definition nl : ascii := "010"%char.

(** [str.isspace] on ASCII, which is also what [\s] matches in a [str]
    pattern: tab, LF, VT, FF, CR, the four information separators
    0x1c..0x1f, and space. *)
Definition is_space (c : ascii) : bool :=
  let n := nat_of_ascii c in
  (((9 <=? n) && (n <=? 13)) || ((28 <=? n) && (n <=? 32)))%nat.

Fixpoint lstrip (s : list ascii) : list ascii :=
  match s with
  | c :: s' => if is_space c then lstrip s' else s
  | [] => []
  end.

(** [str.strip()] *)
Definition strip (s : list ascii) : list ascii := rev (lstrip (rev (lstrip s))).

Definition to_list (s : string) : list ascii := list_ascii_of_string s.
Definition of_list (l : list ascii) : string := string_of_list_ascii l.

(** Truthiness of a [str | None]. *)
Definition truthy (o : option string) : bool :=
  match o with
  | Some s => negb (String.eqb s "")
  | None => false
  end.

(** [str(x)] / f-string interpolation of a [str | None]. *)
Definition str_opt (o : option string) : string :=
  match o with Some s => s | None => "None" end.

Definition lower (c : ascii) : ascii :=
  let n := nat_of_ascii c in
  if ((65 <=? n) && (n <=? 90))%nat then ascii_of_nat (n + 32) else c.

(** The exceptions the modelled code can raise. *)
Inductive exn :=
| InvalidMoveError | IllegalMoveError | AmbiguousMoveError
| TypeError | IndexError.

(** A computation that returns a value or raises. *)
Inductive res (A : Type) := Ok (a : A) | Err (e : exn).
Arguments Ok {A} a.
Arguments Err {A} e.

(** [str(n)] for a natural number. *)
Fixpoint digits (fuel n : nat) (acc : string) : string :=
  match fuel with
  | 0 => acc
  | S fuel' =>
      let d := String (ascii_of_nat (48 + n mod 10)) EmptyString in
      if Nat.ltb n 10 then d ++ acc else digits fuel' (n / 10) (d ++ acc)
  end.
Definition str_nat (n : nat) : string := digits (S n) n "".

End Py.

(* ------------------------------------------------------------------ *)
(** ** Python regular expressions *)

Module Re.

(** The constructs of the patterns in the code. [Star lazy p] is [[p]*]
    (greedy) or [[p]*?] (lazy) over a character class; [Grp n r] is the
    capturing group [n]; [Dollar] is [$] without MULTILINE (end of text,
    or before a final newline); [EndZ] is [\Z]. *)
Inductive re :=
| Chr (p : ascii -> bool)
| Seq (r1 r2 : re)
| Alt (r1 r2 : re)
| Eps
| Star (lazy : bool) (p : ascii -> bool)
| Grp (n : nat) (r : re)
| Dollar
| EndZ.

Definition caps := list (nat * list ascii).

Section Matcher.
Context {R : Type}.

(** Greedy repetition: the longest run first, then backtrack. *)
Fixpoint star_greedy (p : ascii -> bool) (s : list ascii)
    (k : list ascii -> option R) : option R :=
  match s with
  | c :: s' =>
      if p c then
        match star_greedy p s' k with
        | Some x => Some x
        | None => k s
        end
      else k s
  | [] => k s
  end.

(** Lazy repetition: the shortest run first. *)
Fixpoint star_lazy (p : ascii -> bool) (s : list ascii)
    (k : list ascii -> option R) : option R :=
  match k s with
  | Some x => Some x
  | None =>
      match s with
      | c :: s' => if p c then star_lazy p s' k else None
      | [] => None
      end
  end.

(** Backtracking matcher in continuation-passing style: [k] receives the
    rest of the text and the captures, and says whether the rest of the
    pattern matches. *)
Fixpoint m (r : re) (s : list ascii) (c : caps)
    (k : list ascii -> caps -> option R) : option R :=
  match r with
  | Chr p =>
      match s with
      | x :: s' => if p x then k s' c else None
      | [] => None
      end
  | Seq r1 r2 => m r1 s c (fun s' c' => m r2 s' c' k)
  | Alt r1 r2 =>
      match m r1 s c k with
      | Some x => Some x
      | None => m r2 s c k
      end
  | Eps => k s c
  | Star lz p =>
      if lz then star_lazy p s (fun s' => k s' c)
      else star_greedy p s (fun s' => k s' c)
  | Grp n r1 =>
      m r1 s c (fun s' c' => k s' ((n, firstn (length s - length s') s) :: c'))
  | Dollar =>
      match s with
      | [] => k s c
      | [x] => if Ascii.eqb x Py.nl then k s c else None
      | _ => None
      end
  | EndZ =>
      match s with
      | [] => k s c
      | _ => None
      end
  end.

End Matcher.

(** [re.match]: anchored at the start of the text. *)
Definition match_ (r : re) (s : list ascii) : option caps :=
  m r s [] (fun _ c => Some c).

(** [re.search]: the leftmost start position at which [r] matches,
    trying every position from 0 up to and including [len(s)]. *)
Fixpoint search (r : re) (s : list ascii) : option caps :=
  match match_ r s with
  | Some c => Some c
  | None =>
      match s with
      | [] => None
      | _ :: s' => search r s'
      end
  end.

(** [match.group(n)] *)
Fixpoint group (n : nat) (c : caps) : option (list ascii) :=
  match c with
  | (i, g) :: c' => if Nat.eqb i n then Some g else group n c'
  | [] => None
  end.

(** Pattern building blocks. *)
Definition opt (r : re) : re := Alt r Eps.
Definition plus (p : ascii -> bool) : re := Seq (Chr p) (Star false p).
Definition plus_lazy (p : ascii -> bool) : re := Seq (Chr p) (Star true p).
Definition chr_eq (a : ascii) : re := Chr (fun x => Ascii.eqb x a).

(** A literal; [ci] for [re.IGNORECASE]. *)
Fixpoint lit_l (ci : bool) (l : list ascii) : re :=
  match l with
  | [] => Eps
  | a :: l' =>
      Seq (Chr (fun x => if ci then Ascii.eqb (Py.lower x) (Py.lower a)
                         else Ascii.eqb x a))
          (lit_l ci l')
  end.
Definition lit (ci : bool) (s : string) : re := lit_l ci (Py.to_list s).

(** [.] without DOTALL, [\s], [\S]. *)
Definition dot (x : ascii) : bool := negb (Ascii.eqb x Py.nl).
Definition space := Py.is_space.
Definition nonspace (x : ascii) : bool := negb (Py.is_space x).

(** [c] in a character-class string such as ["NBKRQ"]. *)
Definition in_class (cls : string) (x : ascii) : bool :=
  existsb (fun a => Ascii.eqb a x) (Py.to_list cls).

End Re.

(* ------------------------------------------------------------------ *)
(** ** llm_service.py *)

Module LLM.
Import Re.

(** [VALID_EMOTIONS] *)
Definition VALID_EMOTIONS : list string :=
  [ "grandmaster_trance"; "instant_regret"; "smug_trap_setter";
    "bewildered_analyst"; "stone_wall"; "predator"; "resigned_king";
    "impatient_speedster"; "eureka_moment" ].

Record ChessMoveResponse := {
  move : option string;
  comment : option string;
  commentary : option string;
  my_emotion : option string;
  opponent_emotion : option string }.

(** [r"MOVE:\s*(.+?)(?:\n|$)"], IGNORECASE *)
Definition MOVE_re : re :=
  Seq (lit true "MOVE:")
    (Seq (Star false space)
      (Seq (Grp 1 (plus_lazy dot)) (Alt (chr_eq Py.nl) Dollar))).

(** [r"COMMENT:\s*(.+?)(?:\n(?:COMMENTARY|MY_EMOTION|OPPONENT_EMOTION):|$)"] *)
Definition COMMENT_re : re :=
  Seq (lit true "COMMENT:")
    (Seq (Star false space)
      (Seq (Grp 1 (plus_lazy dot))
        (Alt (Seq (chr_eq Py.nl)
                (Seq (Alt (lit true "COMMENTARY")
                        (Alt (lit true "MY_EMOTION") (lit true "OPPONENT_EMOTION")))
                     (lit true ":")))
             Dollar))).

(** [r"COMMENTARY:\s*(.+?)(?:\n(?:MY_EMOTION|OPPONENT_EMOTION):|$)"] *)
Definition COMMENTARY_re : re :=
  Seq (lit true "COMMENTARY:")
    (Seq (Star false space)
      (Seq (Grp 1 (plus_lazy dot))
        (Alt (Seq (chr_eq Py.nl)
                (Seq (Alt (lit true "MY_EMOTION") (lit true "OPPONENT_EMOTION"))
                     (lit true ":")))
             Dollar))).

(** [r"<LABEL>:\s*(\S+)"] for the two emotion labels *)
Definition EMOTION_re (label : string) : re :=
  Seq (lit true label) (Seq (Star false space) (Grp 1 (plus nonspace))).

(** [extract_field]: [match.group(1).strip() if match else None].
    Group 1 always takes part in a match of these patterns. *)
Definition extract_field (pattern : re) (text : string) : option string :=
  match search pattern (Py.to_list text) with
  | Some c =>
      match group 1 c with
      | Some g => Some (Py.of_list (Py.strip g))
      | None => None
      end
  | None => None
  end.

Definition is_valid_emotion (e : string) : bool :=
  existsb (String.eqb e) VALID_EMOTIONS.

(** The emotion check: a truthy value outside [VALID_EMOTIONS] becomes
    ["stone_wall"] and a warning is logged. *)
Definition validate_emotion (what : string) (e : option string)
    : option string * list string :=
  match e with
  | Some v =>
      if Py.truthy e && negb (is_valid_emotion v) then
        (Some "stone_wall",
         ["Invalid " ++ what ++ ": " ++ v ++ ", defaulting to stone_wall"])
      else (e, [])
  | None => (e, [])
  end.

(** [parse_chess_response], with the warnings it logs. *)
Definition parse_chess_response (text : string) : ChessMoveResponse * list string :=
  let mv := extract_field MOVE_re text in
  let cm := extract_field COMMENT_re text in
  let cy := extract_field COMMENTARY_re text in
  let me := extract_field (EMOTION_re "MY_EMOTION:") text in
  let oe := extract_field (EMOTION_re "OPPONENT_EMOTION:") text in
  let (me', w1) := validate_emotion "my_emotion" me in
  let (oe', w2) := validate_emotion "opponent_emotion" oe in
  ({| move := mv; comment := cm; commentary := cy;
      my_emotion := me'; opponent_emotion := oe' |}, (w1 ++ w2)%list).

Record LLMResponse := {
  text : option string;
  session_id : option string;
  error : option string }.

(** What [json.loads] makes of the CLI's standard output: an object,
    whose ["result"] and ["session_id"] keys are each absent or hold a
    string or [null]; some other JSON value (then [.get] raises
    [AttributeError], with message [msg]); or no JSON at all. *)
Inductive cli_stdout :=
| OutDict (result : option (option string)) (session_id : option (option string))
| OutNonDict (msg : string)
| OutInvalid (raw : string).

(** What running the [claude] process does: not found
    ([FileNotFoundError]), exits with a status, or fails otherwise. *)
Inductive cli_outcome :=
| CliNotFound
| CliExit (returncode : Z) (stdout : cli_stdout) (stderr : string)
| CliError (msg : string).

(** The argument vector [call_claude_cli] runs. *)
Definition cli_cmd (prompt : string) (session_id system_prompt : option string)
    : list string :=
  ["claude"; "-p"; prompt; "--output-format"; "json"; "--model"; "haiku"] ++
  (if Py.truthy session_id then ["--resume"; Py.str_opt session_id]
   else if Py.truthy system_prompt then ["--system-prompt"; Py.str_opt system_prompt]
   else []).

(** [call_claude_cli]: the command it runs and the response it returns.
    Every outcome of the process is turned into a response. *)
Definition call_claude_cli (prompt : string) (session_id system_prompt : option string)
    (out : cli_outcome) : list string * LLMResponse :=
  (cli_cmd prompt session_id system_prompt,
   match out with
   | CliNotFound =>
       {| text := Some ""; session_id := None;
          error := Some "Claude CLI not found. Please install claude-code." |}
   | CliExit rc stdout stderr =>
       if negb (Z.eqb rc 0) then
         {| text := Some ""; session_id := session_id;
            error := Some (if String.eqb stderr "" then "Unknown error" else stderr) |}
       else
         match stdout with
         | OutDict r sid =>
             {| text := match r with Some v => v | None => Some "" end;
                session_id := match sid with Some v => v | None => session_id end;
                error := None |}
         | OutNonDict msg =>
             {| text := Some ""; session_id := session_id;
                error := Some ("Error calling Claude CLI: " ++ msg) |}
         | OutInvalid raw =>
             {| text := Some raw; session_id := session_id; error := None |}
         end
   | CliError msg =>
       {| text := Some ""; session_id := session_id;
          error := Some ("Error calling Claude CLI: " ++ msg) |}
   end).

Definition dq : string := String (ascii_of_nat 34) EmptyString.

(** [build_chess_prompt] *)
Definition build_chess_prompt (color user_strategy board_ascii : string)
    (legal_moves : list string) : string :=
  "You are playing chess as " ++ color ++ ".
Your strategy: " ++ user_strategy ++ "

Current board position:
" ++ board_ascii ++ "

Legal moves available: " ++ String.concat ", " legal_moves ++ "

Respond with your move in this exact format:
MOVE: <move in SAN notation like e4, Nf3, O-O>
COMMENT: <your dramatic internal thoughts as the player, be expressive and in-character>
COMMENTARY: <neutral sports announcer, 1-2 sentences, very dramatic like " ++ dq ++
  "Wow! White sacrifices the queen! Unbelievable!" ++ dq ++
  " - describe what happened without technical notation>
MY_EMOTION: <one of: grandmaster_trance, instant_regret, smug_trap_setter, bewildered_analyst, stone_wall, predator, resigned_king, impatient_speedster, eureka_moment>
OPPONENT_EMOTION: <same options - your guess of how your opponent is feeling>

IMPORTANT: Your MOVE must be one of the legal moves listed above.".

(** [build_system_prompt] *)
Definition build_system_prompt (color : string) : string :=
  "You are a chess AI playing as " ++ color ++ ". You will be given the current board state and asked to make moves.

Rules:
1. Always respond with a legal move in SAN notation (e.g., e4, Nf3, Bxc6, O-O)
2. Format your response as:
   MOVE: <your move>
   COMMENT: <your dramatic internal thoughts - be expressive!>
   COMMENTARY: <neutral sports announcer style, 1-2 sentences, very dramatic>
   MY_EMOTION: <one of the 9 emotion keys>
   OPPONENT_EMOTION: <your guess of opponent's emotion>
3. Play according to the strategy provided by your player
4. Be dramatic and entertaining in your comments!

Emotion options: grandmaster_trance, instant_regret, smug_trap_setter, bewildered_analyst, stone_wall, predator, resigned_king, impatient_speedster, eureka_moment

You will receive the board as ASCII art where:
- Uppercase letters = White pieces (K=King, Q=Queen, R=Rook, B=Bishop, N=Knight, P=Pawn)
- Lowercase letters = Black pieces
- Dots (.) = Empty squares".

End LLM.

(* ------------------------------------------------------------------ *)
(** ** python-chess (standard chess) *)

Module Chess.

Inductive color := WHITE | BLACK.
Inductive piece_type := PAWN | KNIGHT | BISHOP | ROOK | QUEEN | KING.
Record piece := Piece { pcolor : color; ptype : piece_type }.

#[global] Instance color_eq_dec : EqDecision color.
Proof. solve_decision. Defined.
#[global] Instance piece_type_eq_dec : EqDecision piece_type.
Proof. solve_decision. Defined.
#[global] Instance piece_eq_dec : EqDecision piece.
Proof. solve_decision. Defined.

Definition other (c : color) : color :=
  match c with WHITE => BLACK | BLACK => WHITE end.

(** Squares as python-chess numbers them: a1 = 0, b1 = 1, ..., h8 = 63. *)
Abbreviation square := nat.
Definition square_file (s : square) : nat := s mod 8.
Definition square_rank (s : square) : nat := s / 8.
Definition square_at (f r : nat) : square := r * 8 + f.

Record Move := mkMove {
  from_square : square;
  to_square : square;
  promotion : option piece_type }.

#[global] Instance move_eq_dec : EqDecision Move.
Proof. solve_decision. Defined.

(** [Move.null()], and [bool(move)] false for it. *)
Definition null_move : Move := mkMove 0 0 None.
Definition is_null (mv : Move) : bool := bool_decide (mv = null_move).

(** A position: what [Board.fen()] records. [castling_rights] is the
    bitmask of rook squares as a list of squares. *)
Record position := Pos {
  pieces : list (option piece);
  turn : color;
  castling_rights : list square;
  ep_square : option square;
  halfmove_clock : nat;
  fullmove_number : nat }.

(** A board: the current position and the stack of (earlier position,
    move pushed from it), most recent first. *)
Record Board := mkBoard { pos : position; stack : list (position * Move) }.

Definition piece_at (p : position) (s : square) : option piece :=
  match pieces p !! s with Some x => x | None => None end.

Definition set_pieces (p : position) (ps : list (option piece)) : position :=
  Pos ps (turn p) (castling_rights p) (ep_square p) (halfmove_clock p)
      (fullmove_number p).

Definition set_piece_at (p : position) (s : square) (x : option piece) : position :=
  set_pieces p (<[s := x]> (pieces p)).

Definition has (p : position) (s : square) (c : color) (t : piece_type) : bool :=
  bool_decide (piece_at p s = Some (Piece c t)).

Definition occupied_by (p : position) (c : color) (s : square) : bool :=
  match piece_at p s with Some pc => bool_decide (pcolor pc = c) | None => false end.

Definition is_empty (p : position) (s : square) : bool :=
  match piece_at p s with Some _ => false | None => true end.

(** [SQUARES] ascending and [scan_reversed] order. *)
Definition squares : list square := seq 0 64.
Definition squares_desc : list square := rev squares.

Definition offset (s : square) (df dr : Z) : option square :=
  let f := (Z.of_nat (square_file s) + df)%Z in
  let r := (Z.of_nat (square_rank s) + dr)%Z in
  if ((0 <=? f) && (f <? 8) && (0 <=? r) && (r <? 8))%Z
  then Some (Z.to_nat (r * 8 + f)) else None.

Definition KNIGHT_D : list (Z * Z) :=
  [(1,2); (2,1); (2,-1); (1,-2); (-1,-2); (-2,-1); (-2,1); (-1,2)]%Z.
Definition KING_D : list (Z * Z) :=
  [(1,0); (1,1); (0,1); (-1,1); (-1,0); (-1,-1); (0,-1); (1,-1)]%Z.
Definition ROOK_D : list (Z * Z) := [(1,0); (-1,0); (0,1); (0,-1)]%Z.
Definition BISHOP_D : list (Z * Z) := [(1,1); (1,-1); (-1,1); (-1,-1)]%Z.

Definition steps (s : square) (ds : list (Z * Z)) : list square :=
  omap (fun d => offset s d.1 d.2) ds.

(** The squares a slider on [s] reaches in direction [(df, dr)]: up to
    and including the first occupied one. *)
Fixpoint ray (p : position) (s : square) (df dr : Z) (n : nat) : list square :=
  match n with
  | 0 => []
  | S n' =>
      match offset s df dr with
      | None => []
      | Some t => if is_empty p t then t :: ray p t df dr n' else [t]
      end
  end.

Definition rays (p : position) (s : square) (ds : list (Z * Z)) : list square :=
  flat_map (fun d => ray p s d.1 d.2 7) ds.

Definition pawn_dir (c : color) : Z := match c with WHITE => 1%Z | BLACK => (-1)%Z end.

(** [BB_PAWN_ATTACKS[c][s]] *)
Definition pawn_attacks (c : color) (s : square) : list square :=
  steps s [(-1, pawn_dir c); (1, pawn_dir c)]%Z.

(** [Board.attacks_mask(s)]: the squares the piece on [s] attacks. *)
Definition attacks (p : position) (s : square) : list square :=
  match piece_at p s with
  | Some (Piece c PAWN) => pawn_attacks c s
  | Some (Piece _ KNIGHT) => steps s KNIGHT_D
  | Some (Piece _ KING) => steps s KING_D
  | Some (Piece _ BISHOP) => rays p s BISHOP_D
  | Some (Piece _ ROOK) => rays p s ROOK_D
  | Some (Piece _ QUEEN) => rays p s (ROOK_D ++ BISHOP_D)
  | None => []
  end.

Definition mem (s : square) (l : list square) : bool := existsb (Nat.eqb s) l.

(** [Board.is_attacked_by(c, t)] *)
Definition attacked_by (p : position) (c : color) (t : square) : bool :=
  existsb (fun s => occupied_by p c s && mem t (attacks p s)) squares.

(** The king [Board.king(c)] looks at: the highest square holding a king
    of colour [c] ([msb]). *)
Definition king_square (p : position) (c : color) : option square :=
  last (List.filter (fun s => has p s c KING) squares).

Definition backrank (c : color) : nat := match c with WHITE => 0 | BLACK => 7 end.

(** [Board.clean_castling_rights()] for standard chess: a right needs its
    rook on its corner and the king on the e-file of the back rank. *)
Definition clean_castling_rights (p : position) : list square :=
  List.filter
    (fun r =>
       mem r (castling_rights p) &&
       (let c := if Nat.eqb (square_rank r) 0 then WHITE else BLACK in
        has p r c ROOK && has p (square_at 4 (backrank c)) c KING))
    [0; 7; 56; 63].

(** [Board._to_chess960]: a king move e1g1/e1c1 (e8g8/e8c8) onto a
    square without a rook is re-encoded as king-takes-own-rook. *)
Definition to_chess960 (p : position) (mv : Move) : Move :=
  let f := from_square mv in
  let t := to_square mv in
  let king_on s := has p s WHITE KING || has p s BLACK KING in
  let rook_on s := has p s WHITE ROOK || has p s BLACK ROOK in
  if (Nat.eqb f 4 && king_on 4) then
    if Nat.eqb t 6 && negb (rook_on 6) then mkMove 4 7 None
    else if Nat.eqb t 2 && negb (rook_on 2) then mkMove 4 0 None
    else mv
  else if (Nat.eqb f 60 && king_on 60) then
    if Nat.eqb t 62 && negb (rook_on 62) then mkMove 60 63 None
    else if Nat.eqb t 58 && negb (rook_on 58) then mkMove 60 56 None
    else mv
  else mv.

(** [Board._from_chess960] for standard chess: king-takes-own-rook on
    the back rank becomes the two-square king move. *)
Definition from_chess960 (p : position) (f t : square) (promo : option piece_type) : Move :=
  match promo with
  | Some _ => mkMove f t promo
  | None =>
      if (Nat.eqb f 4 && (has p 4 WHITE KING || has p 4 BLACK KING)) then
        if Nat.eqb t 7 && (has p 7 WHITE ROOK || has p 7 BLACK ROOK) then mkMove 4 6 None
        else if Nat.eqb t 0 && (has p 0 WHITE ROOK || has p 0 BLACK ROOK) then mkMove 4 2 None
        else mkMove f t promo
      else if (Nat.eqb f 60 && (has p 60 WHITE KING || has p 60 BLACK KING)) then
        if Nat.eqb t 63 && (has p 63 WHITE ROOK || has p 63 BLACK ROOK) then mkMove 60 62 None
        else if Nat.eqb t 56 && (has p 56 WHITE ROOK || has p 56 BLACK ROOK) then mkMove 60 58 None
        else mkMove f t promo
      else mkMove f t promo
  end.

(** [Board.is_zeroing]: a pawn or an opponent's piece is on the squares
    [BB_SQUARES[from] ^ BB_SQUARES[to]] (none when [from = to], as for
    the null move). *)
Definition is_zeroing (p : position) (mv : Move) : bool :=
  let touched s :=
    has p s WHITE PAWN || has p s BLACK PAWN || occupied_by p (other (turn p)) s in
  negb (Nat.eqb (from_square mv) (to_square mv)) &&
  (touched (from_square mv) || touched (to_square mv)).

(** [Board.push], on the position (the stack is handled by [push]). *)
Definition push_pos (p0 : position) (mv0 : Move) : position :=
  let c := turn p0 in
  let ep := ep_square p0 in
  let hm := S (halfmove_clock p0) in
  let fm := match c with BLACK => S (fullmove_number p0) | WHITE => fullmove_number p0 end in
  if is_null mv0 then
    Pos (pieces p0) (other c) (castling_rights p0) None hm fm
  else
  let mv := to_chess960 p0 mv0 in
  let f := from_square mv in
  let t := to_square mv in
  let hm := if is_zeroing p0 mv then 0 else hm in
  let cr := clean_castling_rights p0 in
  match piece_at p0 f with
  | None => Pos (pieces p0) (other c) cr None hm fm
  | Some pc =>
  let pt := ptype pc in
  let p1 := set_piece_at p0 f None in
  let captured := piece_at p1 t in
  let cr := List.filter (fun r => negb (Nat.eqb r t) && negb (Nat.eqb r f)) cr in
  let cr :=
    if bool_decide (pt = KING) then
      List.filter (fun r => negb (Nat.eqb (square_rank r) (backrank c))) cr
    else match captured with
      | Some (Piece _ KING) =>
          if Nat.eqb (square_rank t) (backrank (other c))
          then List.filter (fun r => negb (Nat.eqb (square_rank r) (backrank (other c)))) cr
          else cr
      | _ => cr
      end in
  let diff := (Z.of_nat t - Z.of_nat f)%Z in
  let '(p2, ep') :=
    if bool_decide (pt = PAWN) then
      if (Z.eqb diff 16 && Nat.eqb (square_rank f) 1)%Z then (p1, Some (f + 8))
      else if (Z.eqb diff (-16) && Nat.eqb (square_rank f) 6)%Z then (p1, Some (f - 8))
      else if bool_decide (ep = Some t) && (Z.eqb (Z.abs diff) 7 || Z.eqb (Z.abs diff) 9)
              && bool_decide (captured = None) then
        let down := match c with WHITE => (-8)%Z | BLACK => 8%Z end in
        (set_piece_at p1 (Z.to_nat (Z.of_nat t + down)) None, None)
      else (p1, None)
    else (p1, None) in
  let pt := match promotion mv with Some q => q | None => pt end in
  let castling := bool_decide (pt = KING) && occupied_by p2 c t in
  let p3 :=
    if castling then
      let a_side := Nat.ltb (square_file t) (square_file f) in
      let p := set_piece_at (set_piece_at p2 f None) t None in
      let r := backrank c in
      if a_side then
        set_piece_at (set_piece_at p (square_at 2 r) (Some (Piece c KING)))
          (square_at 3 r) (Some (Piece c ROOK))
      else
        set_piece_at (set_piece_at p (square_at 6 r) (Some (Piece c KING)))
          (square_at 5 r) (Some (Piece c ROOK))
    else set_piece_at p2 t (Some (Piece c pt)) in
  Pos (pieces p3) (other c) cr ep' hm fm
  end.

(** [Board.push]: the stack keeps the earlier position and the move in
    standard encoding. *)
Definition push (b : Board) (mv : Move) : Board :=
  let p := pos b in
  let mv' := if is_null mv then mv
             else let m9 := to_chess960 p mv in
                  from_chess960 p (from_square m9) (to_square m9) (promotion m9) in
  mkBoard (push_pos p mv) ((p, mv') :: stack b).

(** A pawn move to [t], with the four promotions on a back rank. *)
Definition promotions (f t : square) : list Move :=
  if Nat.eqb (square_rank t) 0 || Nat.eqb (square_rank t) 7 then
    [mkMove f t (Some QUEEN); mkMove f t (Some ROOK); mkMove f t (Some BISHOP);
     mkMove f t (Some KNIGHT)]
  else [mkMove f t None].

(** [Board.generate_castling_moves] for standard chess, in standard
    encoding. *)
Definition castling_moves (p : position) : list Move :=
  let c := turn p in
  let r := backrank c in
  let e := square_at 4 r in
  let them := other c in
  let no_king := set_piece_at p e None in
  let one (rook : square) : list Move :=
    let a_side := Nat.ltb rook e in
    let king_to := square_at (if a_side then 2 else 6) r in
    let rook_to := square_at (if a_side then 3 else 5) r in
    let must_be_empty :=
      if a_side then [square_at 1 r; square_at 2 r; square_at 3 r]
      else [square_at 5 r; square_at 6 r] in
    let king_path := if a_side then [square_at 3 r] else [square_at 5 r] in
    let after := set_piece_at (set_piece_at no_king rook None) rook_to
                   (Some (Piece c ROOK)) in
    if forallb (is_empty p) must_be_empty &&
       negb (existsb (attacked_by no_king them) (e :: king_path)) &&
       negb (attacked_by after them king_to)
    then [mkMove e king_to None] else [] in
  flat_map one (rev (List.filter (fun s => Nat.eqb (square_rank s) r)
                       (clean_castling_rights p))).

(** [Board.generate_pseudo_legal_moves], in python-chess's order. *)
Definition pseudo_legal_moves (p : position) : list Move :=
  let c := turn p in
  let them := other c in
  let own := occupied_by p c in
  let pawn s := has p s c PAWN in
  let piece_moves :=
    flat_map (fun f =>
      if own f && negb (pawn f) then
        map (fun t => mkMove f t None)
          (List.filter (fun t => mem t (attacks p f) && negb (own t)) squares_desc)
      else []) squares_desc in
  let captures :=
    flat_map (fun f =>
      if pawn f then
        flat_map (promotions f)
          (List.filter (fun t => mem t (pawn_attacks c f) && occupied_by p them t)
             squares_desc)
      else []) squares_desc in
  let back (t : square) (n : Z) : option square :=
    let s := (Z.of_nat t - pawn_dir c * n)%Z in
    if ((0 <=? s) && (s <? 64))%Z then Some (Z.to_nat s) else None in
  let singles :=
    flat_map (fun t =>
      match back t 8%Z with
      | Some f => if pawn f && is_empty p t then promotions f t else []
      | None => []
      end) squares_desc in
  let doubles :=
    flat_map (fun t =>
      match back t 8%Z, back t 16%Z with
      | Some m, Some f =>
          if pawn f && is_empty p m && is_empty p t &&
             (match c with
              | WHITE => Nat.eqb (square_rank t) 2 || Nat.eqb (square_rank t) 3
              | BLACK => Nat.eqb (square_rank t) 5 || Nat.eqb (square_rank t) 4
              end)
          then [mkMove f t None] else []
      | _, _ => []
      end) squares_desc in
  let ep_moves :=
    match ep_square p with
    | Some e =>
        if is_empty p e then
          map (fun f => mkMove f e None)
            (List.filter (fun f =>
               pawn f && mem e (pawn_attacks c f) &&
               Nat.eqb (square_rank f) (match c with WHITE => 4 | BLACK => 3 end))
             squares_desc)
        else []
    | None => []
    end in
  piece_moves ++ castling_moves p ++ captures ++ singles ++ doubles ++ ep_moves.

(** A move is legal when it does not leave the mover's king attacked (a
    side without a king has every pseudo-legal move). The order is that
    of [pseudo_legal_moves]; python-chess lists evasions in another order
    when in check. *)
Definition is_safe (p : position) (mv : Move) : bool :=
  let c := turn p in
  let q := push_pos p mv in
  match king_square q c with
  | Some k => negb (attacked_by q (other c) k)
  | None => true
  end.

Definition legal_moves_pos (p : position) : list Move :=
  List.filter (is_safe p) (pseudo_legal_moves p).

Definition legal_moves (b : Board) : list Move := legal_moves_pos (pos b).

Definition is_legal (p : position) (mv : Move) : bool :=
  existsb (fun m => bool_decide (m = mv)) (legal_moves_pos p).


Definition start_position : position :=
  let back c := map (fun t => Some (Piece c t))
                  [ROOK; KNIGHT; BISHOP; QUEEN; KING; BISHOP; KNIGHT; ROOK] in
  let pawns c := repeat (Some (Piece c PAWN)) 8 in
  Pos (back WHITE ++ pawns WHITE ++ repeat None 32 ++ pawns BLACK ++ back BLACK)
      WHITE [0; 7; 56; 63] None 0 1.

Definition is_check (p : position) : bool :=
  match king_square p (turn p) with
  | Some k => attacked_by p (other (turn p)) k
  | None => false
  end.

Definition is_checkmate (p : position) : bool :=
  is_check p && bool_decide (legal_moves_pos p = []).

(** [Board.is_en_passant] *)
Definition is_en_passant (p : position) (mv : Move) : bool :=
  let diff := Z.abs (Z.of_nat (to_square mv) - Z.of_nat (from_square mv)) in
  bool_decide (ep_square p = Some (to_square mv)) &&
  (has p (from_square mv) WHITE PAWN || has p (from_square mv) BLACK PAWN) &&
  (Z.eqb diff 7 || Z.eqb diff 9)%Z && is_empty p (to_square mv).

Definition has_legal_en_passant (p : position) : bool :=
  match ep_square p with
  | Some _ => existsb (is_en_passant p) (legal_moves_pos p)
  | None => false
  end.

(** [Board._transposition_key] *)
Definition transposition_key (p : position)
    : list (option piece) * color * list square * option square :=
  (pieces p, turn p, clean_castling_rights p,
   if has_legal_en_passant p then ep_square p else None).

(** [Board._reduces_castling_rights]; the touched squares are
    [BB_SQUARES[from] ^ BB_SQUARES[to]], none when [from = to]. *)
Definition reduces_castling_rights (p : position) (mv : Move) : bool :=
  let cr := clean_castling_rights p in
  let touched s :=
    negb (Nat.eqb (from_square mv) (to_square mv)) &&
    (Nat.eqb s (from_square mv) || Nat.eqb s (to_square mv)) in
  existsb touched cr ||
  (existsb (fun r => Nat.eqb (square_rank r) 0) cr &&
   existsb (fun s => touched s && has p s WHITE KING) squares) ||
  (existsb (fun r => Nat.eqb (square_rank r) 7) cr &&
   existsb (fun s => touched s && has p s BLACK KING) squares).

Definition is_irreversible (p : position) (mv : Move) : bool :=
  is_zeroing p mv || reduces_castling_rights p mv || has_legal_en_passant p.

(** [Board.is_repetition(count)]: walk back through the stack, stopping
    at an irreversible move, counting earlier occurrences of the current
    position. *)
Fixpoint repetition_walk (key : list (option piece) * color * list square * option square)
    (st : list (position * Move)) (count : nat) : bool :=
  if Nat.leb count 1 then true
  else
    match st with
    | [] => false
    | (p, mv) :: st' =>
        if is_irreversible p mv then false
        else if bool_decide (transposition_key p = key)
        then repetition_walk key st' (count - 1)
        else repetition_walk key st' count
    end.

Definition is_repetition (b : Board) (count : nat) : bool :=
  repetition_walk (transposition_key (pos b)) (stack b) count.

Definition is_dark (s : square) : bool := Nat.even (square_file s + square_rank s).

Definition has_insufficient_material (p : position) (c : color) : bool :=
  let any f := existsb f squares in
  if any (fun s => has p s c PAWN || has p s c ROOK || has p s c QUEEN) then false
  else if any (fun s => has p s c KNIGHT) then
    Nat.leb (length (List.filter (occupied_by p c) squares)) 2 &&
    negb (any (fun s => occupied_by p (other c) s &&
                        negb (has p s (other c) KING) && negb (has p s (other c) QUEEN)))
  else if any (fun s => has p s c BISHOP) then
    let bishop s := has p s WHITE BISHOP || has p s BLACK BISHOP in
    (negb (any (fun s => bishop s && is_dark s)) ||
     negb (any (fun s => bishop s && negb (is_dark s)))) &&
    negb (any (fun s => has p s WHITE PAWN || has p s BLACK PAWN)) &&
    negb (any (fun s => has p s WHITE KNIGHT || has p s BLACK KNIGHT))
  else true.

Definition is_insufficient_material (p : position) : bool :=
  has_insufficient_material p WHITE && has_insufficient_material p BLACK.

Inductive Termination :=
| CHECKMATE | STALEMATE | INSUFFICIENT_MATERIAL | SEVENTYFIVE_MOVES
| FIVEFOLD_REPETITION | FIFTY_MOVES | THREEFOLD_REPETITION.

Record Outcome := { termination : Termination; winner : option color }.

(** [Board.outcome()] (no draw claims). *)
Definition outcome (b : Board) : option Outcome :=
  let p := pos b in
  if is_checkmate p then Some {| termination := CHECKMATE; winner := Some (other (turn p)) |}
  else if is_insufficient_material p then
    Some {| termination := INSUFFICIENT_MATERIAL; winner := None |}
  else if bool_decide (legal_moves_pos p = []) then
    Some {| termination := STALEMATE; winner := None |}
  else if Nat.leb 150 (halfmove_clock p) then
    Some {| termination := SEVENTYFIVE_MOVES; winner := None |}
  else if is_repetition b 5 then
    Some {| termination := FIVEFOLD_REPETITION; winner := None |}
  else None.

Definition is_game_over (b : Board) : bool :=
  match outcome b with Some _ => true | None => false end.

(** Names and symbols. *)
Definition char (n : nat) : string := String (ascii_of_nat n) EmptyString.
Definition FILE_NAME (f : nat) : string := char (97 + f).
Definition RANK_NAME (r : nat) : string := char (49 + r).
Definition square_name (s : square) : string :=
  FILE_NAME (square_file s) ++ RANK_NAME (square_rank s).

Definition piece_symbol (t : piece_type) : string :=
  match t with
  | PAWN => "p" | KNIGHT => "n" | BISHOP => "b"
  | ROOK => "r" | QUEEN => "q" | KING => "k"
  end.
Definition piece_symbol_upper (t : piece_type) : string :=
  match t with
  | PAWN => "P" | KNIGHT => "N" | BISHOP => "B"
  | ROOK => "R" | QUEEN => "Q" | KING => "K"
  end.
Definition symbol (pc : piece) : string :=
  match pcolor pc with
  | WHITE => piece_symbol_upper (ptype pc)
  | BLACK => piece_symbol (ptype pc)
  end.

(** [Move.uci()] *)
Definition uci (mv : Move) : string :=
  if is_null mv then "0000"
  else square_name (from_square mv) ++ square_name (to_square mv) ++
       match promotion mv with Some t => piece_symbol t | None => "" end.

(** [Board.is_castling] *)
Definition is_castling (p : position) (mv : Move) : bool :=
  (has p (from_square mv) WHITE KING || has p (from_square mv) BLACK KING) &&
  (Nat.ltb 1 (Z.to_nat (Z.abs (Z.of_nat (square_file (from_square mv)) -
                               Z.of_nat (square_file (to_square mv))))) ||
   has p (to_square mv) (turn p) ROOK).

Definition is_capture (p : position) (mv : Move) : bool :=
  occupied_by p (other (turn p)) (to_square mv) || is_en_passant p mv.

(** [Board._algebraic_without_suffix] for a legal or null move. *)
Definition algebraic_without_suffix (p : position) (mv : Move) : string :=
  if is_null mv then "--"
  else if is_castling p mv then
    if Nat.ltb (square_file (to_square mv)) (square_file (from_square mv))
    then "O-O-O" else "O-O"
  else
  match piece_at p (from_square mv) with
  | None => ""
  | Some pc =>
    let pt := ptype pc in
    let f := from_square mv in
    let capture := is_capture p mv in
    let disamb :=
      if bool_decide (pt = PAWN) then
        if capture then FILE_NAME (square_file f) else ""
      else
        let others :=
          map from_square
            (List.filter (fun m => Nat.eqb (to_square m) (to_square mv) &&
                                   negb (Nat.eqb (from_square m) f) &&
                                   has p (from_square m) (turn p) pt)
               (legal_moves_pos p)) in
        match others with
        | [] => ""
        | _ =>
          let row := existsb (fun o => Nat.eqb (square_file o) (square_file f)) others in
          let column := existsb (fun o => Nat.eqb (square_rank o) (square_rank f)) others
                        || negb row in
          (if column then FILE_NAME (square_file f) else "") ++
          (if row then RANK_NAME (square_rank f) else "")
        end in
    (if bool_decide (pt = PAWN) then "" else piece_symbol_upper pt) ++ disamb ++
    (if capture then "x" else "") ++ square_name (to_square mv) ++
    match promotion mv with Some t => "=" ++ piece_symbol_upper t | None => "" end
  end.

(** [Board.san(move)]: with [+] or [#] after pushing it. *)
Definition san (b : Board) (mv : Move) : string :=
  let p := pos b in
  let s := algebraic_without_suffix p mv in
  let q := push_pos p mv in
  if is_null mv then s
  else if is_checkmate q then s ++ "#"
  else if is_check q then s ++ "+"
  else s.

(** [Board.board_fen()] *)
Fixpoint rank_fen (p : position) (r f empties : nat) (fuel : nat) : string :=
  match fuel with
  | 0 => if Nat.eqb empties 0 then "" else Py.str_nat empties
  | S fuel' =>
      match piece_at p (square_at f r) with
      | Some pc =>
          (if Nat.eqb empties 0 then "" else Py.str_nat empties) ++ symbol pc ++
          rank_fen p r (S f) 0 fuel'
      | None => rank_fen p r (S f) (S empties) fuel'
      end
  end.

Definition board_fen (p : position) : string :=
  String.concat "/" (map (fun r => rank_fen p r 0 0 8) [7; 6; 5; 4; 3; 2; 1; 0]).

(** [Board.castling_xfen()] for rights on the corner squares. *)
Definition castling_xfen (p : position) : string :=
  let cr := clean_castling_rights p in
  let side c k q :=
    match king_square p c with
    | Some _ =>
        (if mem (square_at 7 (backrank c)) cr then k else "") ++
        (if mem (square_at 0 (backrank c)) cr then q else "")
    | None => ""
    end in
  let s := side WHITE "K" "Q" ++ side BLACK "k" "q" in
  if String.eqb s "" then "-" else s.

(** [Board.fen()]: the en passant square only when a legal en passant
    capture exists. *)
Definition fen (b : Board) : string :=
  let p := pos b in
  board_fen p ++ " " ++ (match turn p with WHITE => "w" | BLACK => "b" end) ++ " " ++
  castling_xfen p ++ " " ++
  (match ep_square p with
   | Some e => if has_legal_en_passant p then square_name e else "-"
   | None => "-"
   end) ++ " " ++ Py.str_nat (halfmove_clock p) ++ " " ++ Py.str_nat (fullmove_number p).

(** [str(board)]: eight lines of eight space-separated symbols. *)
Definition board_ascii (b : Board) : string :=
  let p := pos b in
  let line r := String.concat " "
       (map (fun f => match piece_at p (square_at f r) with
                      | Some pc => symbol pc | None => "." end) (seq 0 8)) in
  String.concat (String Py.nl EmptyString) (map line [7; 6; 5; 4; 3; 2; 1; 0]).

(** [chess.Board(fen)]: a fresh board on a position, with no stack. *)
Definition board_of (p : position) : Board := mkBoard p [].

(** [SAN_REGEX]:
    [^([NBKRQ])?([a-h])?([1-8])?[\-x]?([a-h][1-8])(=?[nbrqkNBRQK])?[\+#]?\Z] *)
Definition SAN_RE : Re.re :=
  let cls c := Re.Chr (Re.in_class c) in
  Re.Seq (Re.opt (Re.Grp 1 (cls "NBKRQ")))
  (Re.Seq (Re.opt (Re.Grp 2 (cls "abcdefgh")))
  (Re.Seq (Re.opt (Re.Grp 3 (cls "12345678")))
  (Re.Seq (Re.opt (cls "-x"))
  (Re.Seq (Re.Grp 4 (Re.Seq (cls "abcdefgh") (cls "12345678")))
  (Re.Seq (Re.opt (Re.Grp 5 (Re.Seq (Re.opt (Re.chr_eq "="%char)) (cls "nbrqkNBRQK"))))
  (Re.Seq (Re.opt (cls "+#")) Re.EndZ)))))).

Definition file_of (a : ascii) : nat := nat_of_ascii a - 97.
Definition rank_of (a : ascii) : nat := nat_of_ascii a - 49.

(** [PIECE_SYMBOLS.index(c)] for a lower-case symbol. *)
Definition piece_type_of_symbol (a : ascii) : option piece_type :=
  match a with
  | "p"%char => Some PAWN | "n"%char => Some KNIGHT | "b"%char => Some BISHOP
  | "r"%char => Some ROOK | "q"%char => Some QUEEN | "k"%char => Some KING
  | _ => None
  end.

(** [Board.find_move] *)
Definition find_move (p : position) (f t : square) (promo : option piece_type)
    : Py.res Move :=
  let promo :=
    match promo with
    | None => if (has p f WHITE PAWN || has p f BLACK PAWN) &&
                 (Nat.eqb (square_rank t) 0 || Nat.eqb (square_rank t) 7)
              then Some QUEEN else None
    | Some _ => promo
    end in
  let mv := from_chess960 p f t promo in
  if is_legal p mv then Py.Ok mv else Py.Err Py.IllegalMoveError.

(** [Board.parse_san] *)
Definition parse_san (b : Board) (san : string) : Py.res Move :=
  let p := pos b in
  let castles := List.filter (is_castling p) (legal_moves_pos p) in
  if existsb (String.eqb san) ["O-O"; "O-O+"; "O-O#"; "0-0"; "0-0+"; "0-0#"] then
    match List.find (fun m => Nat.ltb (square_file (from_square m))
                                      (square_file (to_square m))) castles with
    | Some m => Py.Ok m
    | None => Py.Err Py.IllegalMoveError
    end
  else if existsb (String.eqb san) ["O-O-O"; "O-O-O+"; "O-O-O#"; "0-0-0"; "0-0-0+"; "0-0-0#"] then
    match List.find (fun m => Nat.ltb (square_file (to_square m))
                                      (square_file (from_square m))) castles with
    | Some m => Py.Ok m
    | None => Py.Err Py.IllegalMoveError
    end
  else
  match Re.match_ SAN_RE (Py.to_list san) with
  | None =>
      if existsb (String.eqb san) ["--"; "Z0"; "0000"; "@@@@"] then Py.Ok null_move
      else Py.Err Py.InvalidMoveError
  | Some cs =>
      let g n := Re.group n cs in
      let to_sq := match g 4 with
                   | Some [fc; rc] => square_at (file_of fc) (rank_of rc)
                   | _ => 0
                   end in
      let promo := match g 5 with
                   | Some l => match last l with
                               | Some a => piece_type_of_symbol (Py.lower a)
                               | None => None
                               end
                   | None => None
                   end in
      let file_ok f := match g 2 with Some [a] => Nat.eqb (square_file f) (file_of a)
                                     | _ => true end in
      let rank_ok f := match g 3 with Some [a] => Nat.eqb (square_rank f) (rank_of a)
                                     | _ => true end in
      let match_legal (from_ok : square -> bool) : Py.res Move :=
        (* castling moves are never candidates: their rook square is
           outside the target mask *)
        let cands :=
          List.filter (fun m => from_ok (from_square m) &&
                                Nat.eqb (to_square m) to_sq &&
                                negb (occupied_by p (turn p) to_sq) &&
                                negb (is_castling p m) &&
                                bool_decide (promotion m = promo))
            (legal_moves_pos p) in
        match cands with
        | [] => Py.Err Py.IllegalMoveError
        | [m] => Py.Ok m
        | _ => Py.Err Py.AmbiguousMoveError
        end in
      match g 1, g 2, g 3 with
      | Some [pc], _, _ =>
          match piece_type_of_symbol (Py.lower pc) with
          | Some t => match_legal (fun f => file_ok f && rank_ok f && has p f (turn p) t)
          | None => Py.Err Py.InvalidMoveError
          end
      | _, Some [fc], Some [rc] =>
          match find_move p (square_at (file_of fc) (rank_of rc)) to_sq promo with
          | Py.Ok mv => if bool_decide (promotion mv = promo) then Py.Ok mv
                        else Py.Err Py.IllegalMoveError
          | Py.Err e => Py.Err e
          end
      | _, _, _ =>
          match_legal (fun f =>
            file_ok f && rank_ok f && (has p f WHITE PAWN || has p f BLACK PAWN) &&
            (match g 2 with Some _ => true
                          | None => Nat.eqb (square_file f) (square_file to_sq) end))
      end
  end.

(** [SQUARE_NAMES.index(s)] for a two-character name. *)
Definition square_of_name (l : list ascii) : option square :=
  match l with
  | [fc; rc] =>
      if Re.in_class "abcdefgh" fc && Re.in_class "12345678" rc
      then Some (square_at (file_of fc) (rank_of rc)) else None
  | _ => None
  end.

(** What [Move.from_uci] builds. *)
Inductive uci_move := UNull | UDrop | UMove (mv : Move).

(** [Move.from_uci] *)
Definition from_uci (uci : string) : Py.res uci_move :=
  let l := Py.to_list uci in
  if String.eqb uci "0000" then Py.Ok UNull
  else match l with
  | [pc; "@"%char; fc; rc] =>
      match piece_type_of_symbol (Py.lower pc), square_of_name [fc; rc] with
      | Some _, Some _ => Py.Ok UDrop
      | _, _ => Py.Err Py.InvalidMoveError
      end
  | a :: b :: c :: d :: rest =>
      match rest with
      | [] | [_] =>
          match square_of_name [a; b], square_of_name [c; d],
                match rest with
                | [e] => match piece_type_of_symbol e with
                         | Some t => Some (Some t) | None => None end
                | _ => Some None
                end with
          | Some f, Some t, Some promo =>
              if Nat.eqb f t then Py.Err Py.InvalidMoveError
              else Py.Ok (UMove (mkMove f t promo))
          | _, _, _ => Py.Err Py.InvalidMoveError
          end
      | _ => Py.Err Py.InvalidMoveError
      end
  | _ => Py.Err Py.InvalidMoveError
  end.

(** [Board.parse_uci] *)
Definition parse_uci (b : Board) (uci : string) : Py.res Move :=
  let p := pos b in
  match from_uci uci with
  | Py.Err e => Py.Err e
  | Py.Ok UNull => Py.Ok null_move
  | Py.Ok UDrop => Py.Err Py.IllegalMoveError
  | Py.Ok (UMove mv) =>
      let m9 := to_chess960 p mv in
      let mv' := from_chess960 p (from_square m9) (to_square m9) (promotion m9) in
      if is_legal p mv' then Py.Ok mv' else Py.Err Py.IllegalMoveError
  end.

End Chess.

(* ------------------------------------------------------------------ *)
(** ** models.py *)

Module Models.

Inductive GameStatus := WAITING_FOR_PROMPTS | IN_PROGRESS | COMPLETED.

#[global] Instance GameStatus_eq_dec : EqDecision GameStatus.
Proof. solve_decision. Defined.

(** [Color]: the engine maps [board.turn] onto it. *)
Abbreviation Color := Chess.color.

Definition color_value (c : Color) : string :=
  match c with Chess.WHITE => "white" | Chess.BLACK => "black" end.

(** A row of the [moves] table. *)
Record Move := mkMoveRow {
  move_game_code : string;
  move_number : nat;
  color : Color;
  move_uci : string;
  move_san : string;
  comment : option string;
  was_fallback : bool }.

(** A row of the [games] table with its [moves]. The [board_fen] column
    holds [board.fen()], from which [chess.Board(fen)] rebuilds the same
    position; the model keeps the position itself. *)
Record Game := mkGame {
  game_code : string;
  status : GameStatus;
  white_prompt : option string;
  black_prompt : option string;
  white_session_id : option string;
  black_session_id : option string;
  board_fen : Chess.position;
  current_turn : Color;
  result : option string;
  is_paused : bool;
  moves : list Move }.

(** Attribute assignments on a [Game]. *)
Definition set_status (s : GameStatus) (g : Game) : Game :=
  mkGame (game_code g) s (white_prompt g) (black_prompt g) (white_session_id g)
    (black_session_id g) (board_fen g) (current_turn g) (result g) (is_paused g) (moves g).
Definition set_is_paused (b : bool) (g : Game) : Game :=
  mkGame (game_code g) (status g) (white_prompt g) (black_prompt g) (white_session_id g)
    (black_session_id g) (board_fen g) (current_turn g) (result g) b (moves g).
Definition set_white_session_id (s : option string) (g : Game) : Game :=
  mkGame (game_code g) (status g) (white_prompt g) (black_prompt g) s
    (black_session_id g) (board_fen g) (current_turn g) (result g) (is_paused g) (moves g).
Definition set_black_session_id (s : option string) (g : Game) : Game :=
  mkGame (game_code g) (status g) (white_prompt g) (black_prompt g) (white_session_id g)
    s (board_fen g) (current_turn g) (result g) (is_paused g) (moves g).
Definition set_board_fen (p : Chess.position) (g : Game) : Game :=
  mkGame (game_code g) (status g) (white_prompt g) (black_prompt g) (white_session_id g)
    (black_session_id g) p (current_turn g) (result g) (is_paused g) (moves g).
Definition set_current_turn (c : Color) (g : Game) : Game :=
  mkGame (game_code g) (status g) (white_prompt g) (black_prompt g) (white_session_id g)
    (black_session_id g) (board_fen g) c (result g) (is_paused g) (moves g).
Definition set_result (r : option string) (g : Game) : Game :=
  mkGame (game_code g) (status g) (white_prompt g) (black_prompt g) (white_session_id g)
    (black_session_id g) (board_fen g) (current_turn g) r (is_paused g) (moves g).
(** [db.add(Move(...))] for this game. *)
Definition add_move (mv : Move) (g : Game) : Game :=
  mkGame (game_code g) (status g) (white_prompt g) (black_prompt g) (white_session_id g)
    (black_session_id g) (board_fen g) (current_turn g) (result g) (is_paused g)
    (moves g ++ [mv]).

(** A game as [POST /games] creates it. *)
Definition new_game (code : string) : Game :=
  mkGame code WAITING_FOR_PROMPTS None None None None Chess.start_position
    Chess.WHITE None false [].

End Models.

(* ------------------------------------------------------------------ *)
(** ** schemas.py *)

Module Schemas.

(** [MoveEvent] as [schemas.py] declares it. *)
Record MoveEvent := {
  move_number : nat;
  color : Models.Color;
  move_uci : string;
  move_san : string;
  comment : option string;
  was_fallback : bool;
  board_fen : string;
  board_ascii : string }.

(** The keyword arguments [run_game] passes to [MoveEvent(...)]. *)
Record MoveEventArgs := {
  a_move_number : nat;
  a_color : Models.Color;
  a_move_uci : string;
  a_move_san : string;
  a_comment : option string;
  a_was_fallback : bool;
  a_board_fen : string;
  a_board_ascii : string;
  a_commentary : option string;
  a_commentary_audio : option string;
  a_my_emotion : option string;
  a_opponent_emotion : option string }.

(** [MoveEvent(...)] with keyword arguments: a pydantic model with the default
    [extra="ignore"] keeps the declared fields and drops the others. *)
Definition mk_MoveEvent (a : MoveEventArgs) : MoveEvent :=
  {| move_number := a_move_number a; color := a_color a; move_uci := a_move_uci a;
     move_san := a_move_san a; comment := a_comment a; was_fallback := a_was_fallback a;
     board_fen := a_board_fen a; board_ascii := a_board_ascii a |}.

Inductive Event :=
| GameStartedEvent
| PromptSubmittedEvent (c : Models.Color)
| MoveEventE (e : MoveEvent)
| GameOverEvent (result termination : string).

(** JSON values of a dump. *)
Inductive jv := JStr (s : string) | JInt (n : nat) | JBool (b : bool) | JNull.

Definition jopt (o : option string) : jv :=
  match o with Some s => JStr s | None => JNull end.

(** [model_dump_json()]: the fields it writes, in declaration order. *)
Definition model_dump (e : Event) : list (string * jv) :=
  match e with
  | GameStartedEvent => [("type", JStr "game_started")]
  | PromptSubmittedEvent c => [("type", JStr "prompt_submitted"); ("color", JStr (Models.color_value c))]
  | MoveEventE m =>
      [("type", JStr "move"); ("move_number", JInt (move_number m));
       ("color", JStr (Models.color_value (color m))); ("move_uci", JStr (move_uci m));
       ("move_san", JStr (move_san m)); ("comment", jopt (comment m));
       ("was_fallback", JBool (was_fallback m)); ("board_fen", JStr (board_fen m));
       ("board_ascii", JStr (board_ascii m))]
  | GameOverEvent r t =>
      [("type", JStr "game_over"); ("result", JStr r); ("termination", JStr t)]
  end.

End Schemas.

(* ------------------------------------------------------------------ *)
(** ** game_engine.py *)

Module Engine.
Import Models.

(** [validate_and_get_move]: SAN first, then UCI. Only the exceptions the
    code names are caught; any other propagates. *)
Definition validate_and_get_move (board : Chess.Board) (move_str : option string)
    : Py.res (option Chess.Move) :=
  if negb (Py.truthy move_str) then Py.Ok None
  else
    let s := Py.str_opt move_str in
    let try_uci :=
      match Chess.parse_uci board s with
      | Py.Ok m => Py.Ok (Some m)
      | Py.Err Py.InvalidMoveError => Py.Ok None
      | Py.Err e => Py.Err e
      end in
    match Chess.parse_san board s with
    | Py.Ok m => Py.Ok (Some m)
    | Py.Err Py.InvalidMoveError => try_uci
    | Py.Err Py.AmbiguousMoveError => try_uci
    | Py.Err e => Py.Err e
    end.

(** [get_random_legal_move]: [random.choice(list(board.legal_moves))],
    with [r] the random index drawn ([IndexError] on an empty list). *)
Definition get_random_legal_move (board : Chess.Board) (r : nat) : Py.res Chess.Move :=
  match Chess.legal_moves board with
  | [] => Py.Err Py.IndexError
  | l => Py.Ok (nth (r mod length l) l Chess.null_move)
  end.

Definition termination_name (t : Chess.Termination) : string :=
  match t with
  | Chess.CHECKMATE => "checkmate"
  | Chess.STALEMATE => "stalemate"
  | Chess.INSUFFICIENT_MATERIAL => "insufficient_material"
  | Chess.SEVENTYFIVE_MOVES => "seventyfive_moves"
  | Chess.FIVEFOLD_REPETITION => "fivefold_repetition"
  | Chess.FIFTY_MOVES => "fifty_moves"
  | Chess.THREEFOLD_REPETITION => "threefold_repetition"
  end.

(** [get_game_result] *)
Definition get_game_result (board : Chess.Board) : string * string :=
  match Chess.outcome board with
  | None => ("unknown", "unknown")
  | Some o =>
      (match Chess.winner o with
       | None => "draw"
       | Some Chess.WHITE => "white_wins"
       | Some Chess.BLACK => "black_wins"
       end, termination_name (Chess.termination o))
  end.

(** What the rest of the world does during one turn: the subscriber
    count read at its top, what the CLI process does, the index
    [random.choice] draws, and what the audio hook returns. *)
Record TurnEnv := {
  subscribers : nat;
  cli : LLM.cli_outcome;
  rand : nat;
  audio : option string }.

(** The subscriber counts read while waiting for the first viewer (one
    per 100 ms poll; missing reads are zero), and the turns. *)
Record Env := { wait_counts : list nat; turns : list TurnEnv }.

(** The session's [game] object, the committed snapshots of it (oldest
    first), the broadcasts [(game_code, event)], the CLI command lines
    run, and the warnings logged by the parser. *)
Record World := mkWorld {
  game : Game;
  commits : list Game;
  published : list (string * Schemas.Event);
  calls : list (list string);
  warnings : list string }.

Definition M (A : Type) : Type := World -> Py.res A * World.

#[global] Instance M_ret : MRet M := fun A a w => (Py.Ok a, w).
#[global] Instance M_bind : MBind M := fun A B k m w =>
  match m w with
  | (Py.Ok a, w') => k a w'
  | (Py.Err e, w') => (Py.Err e, w')
  end.

Definition lift {A} (r : Py.res A) : M A := fun w => (r, w).

Definition get_game : M Game := fun w => (Py.Ok (game w), w).

Definition update_game (f : Game -> Game) : M unit := fun w =>
  (Py.Ok tt, mkWorld (f (game w)) (commits w) (published w) (calls w) (warnings w)).

(** [await db.commit()] *)
Definition commit : M unit := fun w =>
  (Py.Ok tt, mkWorld (game w) (commits w ++ [game w]) (published w) (calls w) (warnings w)).

(** [await sse_manager.broadcast(code, event)] *)
Definition broadcast (code : string) (e : Schemas.Event) : M unit := fun w =>
  (Py.Ok tt, mkWorld (game w) (commits w) (published w ++ [(code, e)]) (calls w) (warnings w)).

Definition record_call (cmd : list string) : M unit := fun w =>
  (Py.Ok tt, mkWorld (game w) (commits w) (published w) (calls w ++ [cmd]) (warnings w)).

Definition log_warnings (ws : list string) : M unit := fun w =>
  (Py.Ok tt, mkWorld (game w) (commits w) (published w) (calls w) (warnings w ++ ws)).

(** How an invocation of [run_game] ends (when it does not raise);
    [InputsExhausted] marks the end of the modelled prefix of a run. *)
Inductive exit := NotFound | NoViewersAtStart | ViewersLeft | Completed | InputsExhausted.

(** The fallback comment of step (6). *)
Definition fallback_comment (move_str comment : option string) : option string :=
  let notice := "[FALLBACK - LLM suggested invalid move '" ++ Py.str_opt move_str ++ "']" in
  if Py.truthy comment then Some (notice ++ " " ++ Py.str_opt comment) else Some notice.

(** One pass of the [while] body after the subscriber check: returns the
    new board and move number. *)
Definition play_turn (code : string) (t : TurnEnv) (board : Chess.Board) (move_number : nat)
    : M (Chess.Board * nat) :=
  g ← get_game;
  let current_color := Chess.turn (Chess.pos board) in
  let is_white := bool_decide (current_color = Chess.WHITE) in
  let user_strategy := if is_white then white_prompt g else black_prompt g in
  let session_id := if is_white then white_session_id g else black_session_id g in
  let prompt := LLM.build_chess_prompt (color_value current_color)
                  (Py.str_opt user_strategy) (Chess.board_ascii board)
                  (map (Chess.san board) (Chess.legal_moves board)) in
  let '(cmd, llm_response) :=
    if Py.truthy session_id then LLM.call_claude_cli prompt session_id None (cli t)
    else LLM.call_claude_cli prompt None
           (Some (LLM.build_system_prompt (color_value current_color))) (cli t) in
  record_call cmd;;
  (if Py.truthy (LLM.session_id llm_response) then
     if is_white then update_game (set_white_session_id (LLM.session_id llm_response))
     else update_game (set_black_session_id (LLM.session_id llm_response))
   else mret tt);;
  text ← lift (match LLM.text llm_response with
               | Some s => Py.Ok s
               | None => Py.Err Py.TypeError
               end);
  let '(parsed, ws) := LLM.parse_chess_response text in
  log_warnings ws;;
  let move_str := LLM.move parsed in
  mv ← lift (validate_and_get_move board move_str);
  chosen ← (match mv with
            | Some m => mret (m, false, LLM.comment parsed)
            | None =>
                m ← lift (get_random_legal_move board (rand t));
                mret (m, true, fallback_comment move_str (LLM.comment parsed))
            end : M (Chess.Move * bool * option string));
  let '(m, was_fallback, comment) := chosen in
  let move_san := Chess.san board m in
  let move_uci := Chess.uci m in
  let board' := Chess.push board m in
  update_game (set_board_fen (Chess.pos board'));;
  update_game (set_current_turn (if is_white then Chess.BLACK else Chess.WHITE));;
  update_game (add_move (mkMoveRow code move_number current_color move_uci move_san
                           comment was_fallback));;
  commit;;
  let commentary_audio :=
    if Py.truthy (LLM.commentary parsed) then audio t else None in
  let move_event := Schemas.mk_MoveEvent
    {| Schemas.a_move_number := move_number; Schemas.a_color := current_color;
       Schemas.a_move_uci := move_uci; Schemas.a_move_san := move_san;
       Schemas.a_comment := comment; Schemas.a_was_fallback := was_fallback;
       Schemas.a_board_fen := Chess.fen board'; Schemas.a_board_ascii := Chess.board_ascii board';
       Schemas.a_commentary := LLM.commentary parsed;
       Schemas.a_commentary_audio := commentary_audio;
       Schemas.a_my_emotion := LLM.my_emotion parsed;
       Schemas.a_opponent_emotion := LLM.opponent_emotion parsed |} in
  broadcast code (Schemas.MoveEventE move_event);;
  mret (board', if is_white then move_number else S move_number).

(** The game-over branch after the loop. *)
Definition finish (code : string) (board : Chess.Board) : M exit :=
  let '(result, termination) := get_game_result board in
  update_game (set_status COMPLETED);;
  update_game (set_result (Some result));;
  commit;;
  broadcast code (Schemas.GameOverEvent result termination);;
  mret Completed.

(** [while not board.is_game_over(): ...] over the given turns. *)
Fixpoint game_loop (code : string) (ts : list TurnEnv) (board : Chess.Board)
    (move_number : nat) : M exit :=
  if Chess.is_game_over board then finish code board
  else
    match ts with
    | [] => mret InputsExhausted
    | t :: ts' =>
        if Nat.eqb (subscribers t) 0 then
          update_game (set_is_paused true);; commit;; mret ViewersLeft
        else
          r ← play_turn code t board move_number;
          game_loop code ts' r.1 r.2
    end.

(** The wait for a first subscriber: [range(100)] polls. *)
Definition viewer_arrives (counts : list nat) : bool :=
  existsb (fun n => Nat.ltb 0 n) (firstn 100 counts).

Definition run_game_body (code : string) (env : Env) : M exit :=
  g ← get_game;
  let board := Chess.board_of (board_fen g) in
  broadcast code Schemas.GameStartedEvent;;
  update_game (set_status IN_PROGRESS);;
  update_game (set_is_paused false);;
  commit;;
  let existing_moves := length (moves g) in
  let move_number := existing_moves / 2 + 1 in
  if viewer_arrives (wait_counts env) then game_loop code (turns env) board move_number
  else update_game (set_is_paused true);; commit;; mret NoViewersAtStart.

(** [run_game(game_code, db)] on the stored row ([None] when there is no
    game with that code). *)
Definition run_game (code : string) (stored : option Game) (env : Env)
    : Py.res exit * World :=
  match stored with
  | None => (Py.Ok NotFound, mkWorld (new_game code) [] [] [] [])
  | Some g => run_game_body code env (mkWorld g [] [] [] [])
  end.

End Engine.

(* ------------------------------------------------------------------ *)
(** ** sse_manager.py *)

Module SSE.

(** [model_dump_json()]: compact JSON, strings escaped as pydantic does
    for ASCII text. *)
Definition hex (n : nat) : ascii := ascii_of_nat (if Nat.ltb n 10 then 48 + n else 87 + n).

Fixpoint json_escape (s : string) : string :=
  match s with
  | EmptyString => ""
  | String c s' =>
      let n := nat_of_ascii c in
      let e :=
        if Nat.eqb n 34 then "\" ++ LLM.dq
        else if Nat.eqb n 92 then "\\"
        else if Nat.eqb n 10 then "\n"
        else if Nat.eqb n 13 then "\r"
        else if Nat.eqb n 9 then "\t"
        else if Nat.eqb n 8 then "\b"
        else if Nat.eqb n 12 then "\f"
        else if Nat.ltb n 32 then
          "\u00" ++ String (hex (n / 16)) (String (hex (n mod 16)) EmptyString)
        else String c EmptyString in
      e ++ json_escape s'
  end.

Definition json_value (v : Schemas.jv) : string :=
  match v with
  | Schemas.JStr s => LLM.dq ++ json_escape s ++ LLM.dq
  | Schemas.JInt n => Py.str_nat n
  | Schemas.JBool b => if b then "true" else "false"
  | Schemas.JNull => "null"
  end.

Definition model_dump_json (e : Schemas.Event) : string :=
  "{" ++ String.concat "," (map (fun kv => LLM.dq ++ kv.1 ++ LLM.dq ++ ":" ++ json_value kv.2)
                       (Schemas.model_dump e)) ++ "}".

(** [f"data: {data}\n\n"] *)
Definition sse_message (e : Schemas.Event) : string :=
  "data: " ++ model_dump_json e ++ String Py.nl (String Py.nl EmptyString).

(** An [asyncio.Queue] is named by an identifier; an item is a message
    or the shutdown signal [None]. *)
Abbreviation qid := nat.

(** The manager's objects: [_connections] (a [defaultdict(list)]) and
    the contents of the queues. *)
Record SSEManager := mkManager {
  _connections : gmap string (list qid);
  queue_items : gmap qid (list (option string)) }.

Definition init : SSEManager := mkManager ∅ ∅.

(** [self._connections[game_code]] on a [defaultdict(list)]: the list,
    [[]] for a missing key. *)
Definition conns (m : SSEManager) (code : string) : list qid :=
  default [] (_connections m !! code).

(** [get_subscriber_count]: [len(self._connections.get(game_code, []))]. *)
Definition get_subscriber_count (m : SSEManager) (code : string) : nat :=
  length (default [] (_connections m !! code)).

(** [await queue.put(x)] on an unbounded queue. *)
Definition put (x : option string) (m : SSEManager) (q : qid) : SSEManager :=
  mkManager (_connections m) (<[q := (default [] (queue_items m !! q) ++ [x])%list]> (queue_items m)).

(** [broadcast(game_code, event)] *)
Definition broadcast (m : SSEManager) (code : string) (e : Schemas.Event) : SSEManager :=
  match _connections m !! code with
  | None => m
  | Some qs => fold_left (put (Some (sse_message e))) qs m
  end.

(** [close_game(game_code)] *)
Definition close_game (m : SSEManager) (code : string) : SSEManager :=
  match _connections m !! code with
  | None => m
  | Some qs => fold_left (put None) qs m
  end.

(** [list.remove(x)]: drops the first occurrence; [None] is the
    [ValueError] raised when there is none. *)
Fixpoint list_remove (x : qid) (l : list qid) : option (list qid) :=
  match l with
  | [] => None
  | y :: l' => if Nat.eqb x y then Some l' else cons y <$> list_remove x l'
  end.

(** The start of [subscribe]'s body, run at the generator's first
    [__anext__]: a new queue [q] appended to the code's list. *)
Definition subscribe_enter (m : SSEManager) (code : string) (q : qid) : SSEManager :=
  mkManager (<[code := (conns m code ++ [q])%list]> (_connections m))
    (<[q := []]> (queue_items m)).

(** The [finally] block of [subscribe]. *)
Definition subscribe_finally (m : SSEManager) (code : string) (q : qid)
    : option SSEManager :=
  l' ← list_remove q (conns m code);
  Some (mkManager
          (match l' with
           | [] => delete code (_connections m)
           | _ => <[code := l']> (_connections m)
           end)
          (queue_items m)).

(** The running system: the manager, the [subscribe] generators whose
    body is suspended inside the [try] (their queue and game code, in
    the order they started), the next fresh queue, and the messages the
    streams have yielded to their consumers. *)
Record Sys := mkSys {
  mgr : SSEManager;
  live : list (qid * string);
  fresh : qid;
  delivered : list (qid * string) }.

Definition sys_init : Sys := mkSys init [] 0 [].

(** What can happen: a new [/events] stream starts; a stream's consumer
    asks for its next item ([await queue.get()] resumes if the queue is
    non-empty); a consumer disconnects (the generator is closed at its
    [await]); the engine broadcasts; [close_game]. Streams are named by
    their queue. *)
Inductive action :=
| Subscribe (code : string)
| Next (q : qid)
| Disconnect (q : qid)
| Broadcast (code : string) (e : Schemas.Event)
| CloseGame (code : string).

Definition live_code (s : Sys) (q : qid) : option string :=
  snd <$> List.find (fun p => Nat.eqb (fst p) q) (live s).

Definition drop_live (q : qid) (l : list (qid * string)) : list (qid * string) :=
  List.filter (fun p => negb (Nat.eqb (fst p) q)) l.

(** The stream [q] of [code] leaves its [try]: the [finally] block runs
    (an exception in it is [None]). *)
Definition end_stream (s : Sys) (q : qid) (code : string) : option Sys :=
  m' ← subscribe_finally (mgr s) code q;
  Some (mkSys m' (drop_live q (live s)) (fresh s) (delivered s)).

Definition step (s : Sys) (a : action) : option Sys :=
  match a with
  | Subscribe code =>
      Some (mkSys (subscribe_enter (mgr s) code (fresh s)) (live s ++ [(fresh s, code)])%list
              (S (fresh s)) (delivered s))
  | Next q =>
      match live_code s q with
      | None => Some s
      | Some code =>
          match queue_items (mgr s) !! q with
          | Some (Some msg :: rest) =>
              Some (mkSys (mkManager (_connections (mgr s)) (<[q := rest]> (queue_items (mgr s))))
                      (live s) (fresh s) (delivered s ++ [(q, msg)]))
          | Some (None :: rest) =>
              end_stream (mkSys (mkManager (_connections (mgr s)) (<[q := rest]> (queue_items (mgr s))))
                            (live s) (fresh s) (delivered s)) q code
          | _ => Some s
          end
      end
  | Disconnect q =>
      match live_code s q with
      | None => Some s
      | Some code => end_stream s q code
      end
  | Broadcast code e =>
      Some (mkSys (broadcast (mgr s) code e) (live s) (fresh s) (delivered s))
  | CloseGame code =>
      Some (mkSys (close_game (mgr s) code) (live s) (fresh s) (delivered s))
  end.

Fixpoint run (s : Sys) (acts : list action) : option Sys :=
  match acts with
  | [] => Some s
  | a :: acts' => s' ← step s a; run s' acts'
  end.

(** The live streams of a game code. *)
Definition streams_of (l : list (qid * string)) (code : string) : list qid :=
  map fst (List.filter (fun p => String.eqb (snd p) code) l).

End SSE.

(* ------------------------------------------------------------------ *)
(** ** Concrete runs *)

Module Scenarios.
Import Models Engine.

(** A CLI run that exits 0 with [{"result": t, "session_id": sid}]. *)
Definition ok_out (t sid : string) : LLM.cli_outcome :=
  LLM.CliExit 0 (LLM.OutDict (Some (Some t)) (Some (Some sid))) "".

(** A turn watched by one viewer. *)
Definition watched (c : LLM.cli_outcome) : TurnEnv :=
  {| subscribers := 1; cli := c; rand := 3; audio := Some "AUDIO" |}.

(** A viewer is there at the first poll, and then the given CLI runs. *)
Definition env_of (cs : list LLM.cli_outcome) : Env :=
  {| wait_counts := [1]; turns := map watched cs |}.

(** A fresh game of code ["ABC"] run with the given CLI runs. *)
Definition run_new (cs : list LLM.cli_outcome) : Py.res exit * World :=
  run_game "ABC" (Some (new_game "ABC")) (env_of cs).

Definition lines (ls : list string) : string := String.concat (String Py.nl EmptyString) ls.

End Scenarios.

(* ------------------------------------------------------------------ *)
(** ** main.py *)

Module Api.
Import Models.

(** What a handler answers instead of its response: an [HTTPException],
    or FastAPI's 422 when the request body fails validation. *)
Inductive error :=
| HTTPException (status_code : nat) (detail : string)
| RequestValidationError.

(** The database's [games] table (with each game's [moves], in the order
    the database returns them), the events the handlers broadcast, and
    the background tasks they add: [run_game] for a game code. *)
Record State := mkState {
  games : gmap string Game;
  events : list (string * Schemas.Event);
  tasks : list string }.

(** [string.ascii_uppercase + string.digits] *)
Definition alphabet : list ascii := Py.to_list "ABCDEFGHIJKLMNOPQRSTUVWXYZ0123456789".

(** [secrets.choice(alphabet)], [r] being the random draw. *)
Definition choice (r : nat) : ascii := nth (r mod length alphabet) alphabet "A"%char.

(** [generate_game_code(length)], the [k]-th call of [secrets.choice]
    drawing [nth k rs 0]. *)
Definition generate_game_code (length : nat) (rs : list nat) : string :=
  Py.of_list (map (fun k => choice (nth k rs 0)) (seq 0 length)).

(** The [while True] loop of [create_game], one list of draws per
    attempt; [None] when the given attempts run out. *)
Fixpoint fresh_code (attempts : list (list nat)) (gs : gmap string Game) : option string :=
  match attempts with
  | [] => None
  | rs :: attempts' =>
      let game_code := generate_game_code 6 rs in
      match gs !! game_code with
      | Some _ => fresh_code attempts' gs
      | None => Some game_code
      end
  end.

(** [POST /games]: the new game's code and the state after the commit. *)
Definition create_game (attempts : list (list nat)) (st : State) : option (string * State) :=
  game_code ← fresh_code attempts (games st);
  Some (game_code, mkState (<[game_code := new_game game_code]> (games st)) (events st) (tasks st)).

Record SubmitPromptResponse := { message : string; game_started : bool }.

Definition set_white_prompt (p : option string) (g : Game) : Game :=
  mkGame (game_code g) (status g) p (black_prompt g) (white_session_id g)
    (black_session_id g) (board_fen g) (current_turn g) (result g) (is_paused g) (moves g).
Definition set_black_prompt (p : option string) (g : Game) : Game :=
  mkGame (game_code g) (status g) (white_prompt g) p (white_session_id g)
    (black_session_id g) (board_fen g) (current_turn g) (result g) (is_paused g) (moves g).

Definition upper (c : ascii) : ascii :=
  let n := nat_of_ascii c in
  if ((97 <=? n) && (n <=? 122))%nat then ascii_of_nat (n - 32) else c.

(** [str.capitalize()] *)
Definition capitalize (s : string) : string :=
  match Py.to_list s with
  | [] => ""
  | c :: cs => Py.of_list (upper c :: map Py.lower cs)
  end.

(** [SubmitPromptRequest.prompt]: [Field(min_length=1, max_length=2000)]. *)
Definition valid_prompt (p : string) : bool :=
  Nat.leb 1 (String.length p) && Nat.leb (String.length p) 2000.

Definition is_some {A} (o : option A) : bool := match o with Some _ => true | None => false end.

(** [POST /games/{game_code}/prompt] *)
Definition submit_prompt (code : string) (c : Color) (prompt : string) (st : State)
    : (error + SubmitPromptResponse) * State :=
  if negb (valid_prompt prompt) then (inl RequestValidationError, st) else
  match games st !! code with
  | None => (inl (HTTPException 404 "Game not found"), st)
  | Some g =>
      if bool_decide (status g <> WAITING_FOR_PROMPTS)
      then (inl (HTTPException 400 "Game has already started"), st)
      else
      let checked :=
        match c with
        | Chess.WHITE =>
            match white_prompt g with
            | Some _ => inl (HTTPException 400 "White prompt already submitted")
            | None => inr (set_white_prompt (Some prompt) g)
            end
        | Chess.BLACK =>
            match black_prompt g with
            | Some _ => inl (HTTPException 400 "Black prompt already submitted")
            | None => inr (set_black_prompt (Some prompt) g)
            end
        end in
      match checked with
      | inl e => (inl e, st)
      | inr g' =>
          let game_started := is_some (white_prompt g') && is_some (black_prompt g') in
          (inr {| message := capitalize (color_value c) ++ " prompt submitted successfully";
                  game_started := game_started |},
           mkState (<[code := g']> (games st))
             (events st ++ [(code, Schemas.PromptSubmittedEvent c)])
             (if game_started then tasks st ++ [code] else tasks st))
      end
  end.

(** Submissions one after the other: the answers, in order. *)
Fixpoint submit_all (reqs : list (string * Color * string)) (st : State)
    : list (error + SubmitPromptResponse) * State :=
  match reqs with
  | [] => ([], st)
  | (code, c, p) :: reqs' =>
      let '(r, st1) := submit_prompt code c p st in
      let '(rs, st2) := submit_all reqs' st1 in
      (r :: rs, st2)
  end.

(** [GET /games/{game_code}/events] up to the [StreamingResponse]
    (whose generator is [SSEManager.subscribe]). *)
Definition game_events (code : string) (st : State) : (error + unit) * State :=
  match games st !! code with
  | None => (inl (HTTPException 404 "Game not found"), st)
  | Some g =>
      if is_paused g && bool_decide (status g = IN_PROGRESS)
      then (inr tt, mkState (<[code := set_is_paused false g]> (games st)) (events st)
                      (tasks st ++ [code]))
      else (inr tt, st)
  end.

(** Viewers connecting one after the other. *)
Fixpoint connect_all (codes : list string) (st : State) : State :=
  match codes with
  | [] => st
  | code :: codes' => connect_all codes' (snd (game_events code st))
  end.

(** The sort key [(m.move_number, m.color != Color.WHITE)], compared as
    a tuple ([False < True]). *)
Definition move_key_leb (a b : Move) : bool :=
  let ka := negb (bool_decide (color a = Chess.WHITE)) in
  let kb := negb (bool_decide (color b = Chess.WHITE)) in
  Nat.ltb (move_number a) (move_number b) ||
  (Nat.eqb (move_number a) (move_number b) && implb ka kb).

Definition move_key_le (a b : Move) : Prop := move_key_leb a b = true.

#[global] Instance move_key_le_dec : RelDecision move_key_le.
Proof. intros a b. unfold move_key_le. apply _. Defined.

Record GameResponse := {
  r_game_code : string;
  r_status : GameStatus;
  r_white_prompt : option string;
  r_black_prompt : option string;
  r_board_fen : Chess.position;
  r_current_turn : Color;
  r_result : option string;
  r_moves : list Move }.

(** [GET /games/{game_code}]; Python's [sorted] is a stable sort, as
    stdpp's [merge_sort] is. *)
Definition get_game (code : string) (st : State) : error + GameResponse :=
  match games st !! code with
  | None => inl (HTTPException 404 "Game not found")
  | Some g =>
      inr {| r_game_code := game_code g; r_status := status g;
             r_white_prompt := white_prompt g; r_black_prompt := black_prompt g;
             r_board_fen := board_fen g; r_current_turn := current_turn g;
             r_result := result g; r_moves := merge_sort move_key_le (moves g) |}
  end.

End Api.


(* ------------------------------------------------------------------ *)
(** * Properties *)

(** The properties the theorems below state. *)
Module Props.
Import Models Engine.

(** The game a turn starts from, with at most its side's session token
    changed. *)
Definition session_only (g G : Game) : Prop :=
  G = g \/ exists s, G = set_white_session_id s g \/ G = set_black_session_id s g.

(** The colour that moves after [k] plies from the start. *)
Definition ply_color (k : nat) : Chess.color :=
  if Nat.even k then Chess.WHITE else Chess.BLACK.

(** The move rows are numbered in pairs: the row at index [i] has
    number [i / 2 + 1] and is White's when [i] is even. *)
Definition numbered (ms : list Move) : Prop :=
  forall i row, ms !! i = Some row ->
    move_number row = i / 2 + 1 /\ color row = ply_color i.

(** The stored position has the side to move that the number of
    recorded moves says. *)
Definition turn_consistent (g : Game) : Prop :=
  Chess.turn (board_fen g) = ply_color (length (moves g)).

Definition numbering_ok (g : Game) : Prop := numbered (moves g) /\ turn_consistent g.

(** No committed game is paused unless it is in progress. *)
Definition pause_ok (g : Game) : Prop := is_paused g = true -> status g = IN_PROGRESS.

(** An emotion tag the parser returns: none, or one of the nine. *)
Definition emotion_ok (e : option string) : Prop :=
  match e with None => True | Some v => In v LLM.VALID_EMOTIONS end.

(** The event bus's invariant: for every game code, the list the
    manager holds is the queues of the live streams of that code, in the
    order they subscribed, and no code is mapped to an empty list; the
    live streams have distinct queues, all older than the next one. *)
Definition sse_inv (s : SSE.Sys) : Prop :=
  (forall code,
     SSE.conns (SSE.mgr s) code = SSE.streams_of (SSE.live s) code /\
     SSE._connections (SSE.mgr s) !! code <> Some []) /\
  NoDup (map fst (SSE.live s)) /\
  Forall (fun p => p.1 < SSE.fresh s) (SSE.live s).

End Props.

Module ApiProps.
Import Models Api Props.

Definition both_set (code : string) (st : State) : bool :=
  match games st !! code with
  | Some g => is_some (white_prompt g) && is_some (black_prompt g)
  | None => false
  end.

Definition tasks_for (code : string) (l : list string) : nat :=
  length (List.filter (String.eqb code) l).

Definition started_for (code : string) (req : string * Color * string)
    (r : error + SubmitPromptResponse) : bool :=
  match r with
  | inr resp => String.eqb req.1.1 code && game_started resp
  | inl _ => false
  end.

Fixpoint started_count (code : string) (reqs : list (string * Color * string))
    (rs : list (error + SubmitPromptResponse)) : nat :=
  match reqs, rs with
  | req :: reqs', r :: rs' => (if started_for code req r then 1 else 0) + started_count code reqs' rs'
  | _, _ => 0
  end.

Definition prompt_of (c : Color) (g : Game) : option string :=
  match c with Chess.WHITE => white_prompt g | Chess.BLACK => black_prompt g end.

Definition resumable (code : string) (st : State) : bool :=
  match games st !! code with
  | Some g => is_paused g && bool_decide (status g = IN_PROGRESS)
  | None => false
  end.

Definition is_black (r : Move) : bool := negb (bool_decide (color r = Chess.WHITE)).

End ApiProps.

Module EngineProps.
Import Models Engine Props.

Definition ok_in (l : list Chess.Move) (r : Py.res Chess.Move) : Prop :=
  forall mv, r = Py.Ok mv -> In mv l \/ mv = Chess.null_move.

Definition fools_mate : Chess.Board :=
  fold_left Chess.push
    [Chess.mkMove 13 21 None; Chess.mkMove 52 36 None;
     Chess.mkMove 14 30 None; Chess.mkMove 59 31 None]
    (Chess.board_of Chess.start_position).

End EngineProps.

Module SSEProps.
Import SSE.

Definition line_char (a : ascii) : bool :=
  negb (Ascii.eqb a Py.nl) && negb (Ascii.eqb a "013"%char).

Definition line_safe (s : string) : bool := forallb line_char (Py.to_list s).

(** What the manager puts into the queue of the [q]-th stream over a
    run: every message and close for its code after it subscribed. *)
Fixpoint sent_from (n : nat) (c : option string) (q : qid) (acts : list action)
    : list (option string) :=
  match acts with
  | [] => []
  | Subscribe code :: acts' => sent_from (S n) (if Nat.eqb n q then Some code else c) q acts'
  | Broadcast code e :: acts' =>
      ((if bool_decide (c = Some code) then [Some (sse_message e)] else []) ++
       sent_from n c q acts')%list
  | CloseGame code :: acts' =>
      ((if bool_decide (c = Some code) then [None] else []) ++ sent_from n c q acts')%list
  | _ :: acts' => sent_from n c q acts'
  end.

Definition sent (q : qid) (acts : list action) : list (option string) := sent_from 0 None q acts.

(** The messages the stream [q] has yielded, in order. *)
Definition received (s : Sys) (q : qid) : list string :=
  map snd (List.filter (fun p => Nat.eqb p.1 q) (delivered s)).

Definition next_n (a : action) (n : nat) : nat :=
  match a with Subscribe _ => S n | _ => n end.
Definition next_c (a : action) (n : nat) (c : option string) (q : qid) : option string :=
  match a with Subscribe code => if Nat.eqb n q then Some code else c | _ => c end.
Definition out (a : action) (c : option string) : list (option string) :=
  match a with
  | Broadcast code e => if bool_decide (c = Some code) then [Some (sse_message e)] else []
  | CloseGame code => if bool_decide (c = Some code) then [None] else []
  | _ => []
  end.

(** The state of the [q]-th stream: [n] streams have started; [c] is its
    code once it has started; [P] is what was put for it so far. *)
Definition J (q : qid) (s : Sys) (n : nat) (c : option string) (P : list (option string)) : Prop :=
  Props.sse_inv s /\ fresh s = n /\
  (c = None -> n <= q /\ received s q = [] /\ P = []) /\
  (forall code, c = Some code -> q < n /\
     ((live_code s q = Some code /\
       (map Some (received s q) ++ default [] (queue_items (mgr s) !! q) = P)%list) \/
      (~ In q (map fst (live s)) /\ map Some (received s q) `prefix_of` P))).

End SSEProps.

Module ParserProps.
Import Re.

(** Patterns without capturing groups. *)
Fixpoint nogrp (r : re) : bool :=
  match r with
  | Seq r1 r2 | Alt r1 r2 => nogrp r1 && nogrp r2
  | Grp _ _ => false
  | _ => true
  end.

End ParserProps.

Module EngineFacts.
Import Models Engine Props.

(** The functions whose bodies the engine proofs never need to see. *)
Ltac cbn_engine :=
  cbn -[LLM.call_claude_cli LLM.parse_chess_response validate_and_get_move
        get_random_legal_move Chess.push Chess.san Chess.uci Chess.fen
        Chess.board_ascii LLM.build_chess_prompt LLM.build_system_prompt
        Chess.legal_moves Chess.is_game_over get_game_result].

Ltac unfold_M :=
  unfold mbind, M_bind, mret, M_ret, get_game, record_call, update_game, lift,
    log_warnings, commit, broadcast.

(** What one turn does to the game: either it raises, having at most
    stored a session token, or it plays a move [mv] from [board], stores
    the new position and turn, adds the move row, and commits. *)
Lemma play_turn_spec code t b n w :
  match play_turn code t b n w with
  | (Py.Ok (b', n'), w') =>
      exists G mv cm fb,
        session_only (game w) G /\
        b' = Chess.push b mv /\
        n' = (if bool_decide (Chess.turn (Chess.pos b) = Chess.WHITE) then n else S n) /\
        game w' =
          add_move (mkMoveRow code n (Chess.turn (Chess.pos b)) (Chess.uci mv)
                      (Chess.san b mv) cm fb)
            (set_current_turn
               (if bool_decide (Chess.turn (Chess.pos b) = Chess.WHITE)
                then Chess.BLACK else Chess.WHITE)
               (set_board_fen (Chess.pos b') G)) /\
        commits w' = (commits w ++ [game w'])%list
  | (Py.Err _, w') =>
      exists G, session_only (game w) G /\ game w' = G /\ commits w' = commits w
  end.
Proof.
  destruct w as [g cs ps cl ws].
  unfold play_turn; unfold_M; cbn_engine.
  repeat (case_match; cbn_engine); simplify_eq/=.
  all: unfold session_only.
  all: first
    [ eexists _, _, _, _; split; [| split_and!; reflexivity]
    | eexists; split; [| split; reflexivity]];
    first [left; reflexivity | right; eexists; left; reflexivity
          | right; eexists; right; reflexivity].
Qed.

Lemma session_only_status g G : session_only g G -> status G = status g.
Proof. intros [-> | [s [-> | ->]]]; reflexivity. Qed.

Lemma session_only_is_paused g G : session_only g G -> is_paused G = is_paused g.
Proof. intros [-> | [s [-> | ->]]]; reflexivity. Qed.

Lemma session_only_moves g G : session_only g G -> moves G = moves g.
Proof. intros [-> | [s [-> | ->]]]; reflexivity. Qed.

Lemma session_only_board_fen g G : session_only g G -> board_fen G = board_fen g.
Proof. intros [-> | [s [-> | ->]]]; reflexivity. Qed.

Lemma push_pos_turn p mv : Chess.turn (Chess.push_pos p mv) = Chess.other (Chess.turn p).
Proof.
  unfold Chess.push_pos.
  destruct (Chess.is_null mv); [reflexivity|].
  destruct (Chess.piece_at p _); [|reflexivity].
  cbv zeta. case_match. reflexivity.
Qed.

Lemma pos_push b mv : Chess.pos (Chess.push b mv) = Chess.push_pos (Chess.pos b) mv.
Proof. reflexivity. Qed.

(** A property of games that every commit of [game_loop] keeps, given
    how a turn, a pause and the end of the game change the game. *)
Section LoopInvariant.
Variable P : Game -> Prop.
Variable L : Game -> Chess.Board -> nat -> Prop.
Variable code : string.
Hypothesis L_P : forall g b n, L g b n -> P g.
Hypothesis L_turn : forall g b n G mv cm fb,
  L g b n -> session_only g G ->
  L (add_move (mkMoveRow code n (Chess.turn (Chess.pos b)) (Chess.uci mv)
                 (Chess.san b mv) cm fb)
       (set_current_turn
          (if bool_decide (Chess.turn (Chess.pos b) = Chess.WHITE)
           then Chess.BLACK else Chess.WHITE)
          (set_board_fen (Chess.pos (Chess.push b mv)) G)))
    (Chess.push b mv)
    (if bool_decide (Chess.turn (Chess.pos b) = Chess.WHITE) then n else S n).
Hypothesis L_pause : forall g b n, L g b n -> P (set_is_paused true g).
Hypothesis L_finish : forall g b n r, L g b n -> P (set_result r (set_status COMPLETED g)).

Lemma game_loop_commits ts : forall b n w,
  L (game w) b n -> Forall P (commits w) ->
  Forall P (commits (snd (game_loop code ts b n w))).
Proof.
  induction ts as [|t ts IH]; intros b n w HL HP; simpl.
  - destruct (Chess.is_game_over b).
    + unfold finish. destruct (get_game_result b). unfold_M; simpl.
      apply Forall_app; split; [done|]. constructor; [|done]. eauto.
    + exact HP.
  - destruct (Chess.is_game_over b).
    + unfold finish. destruct (get_game_result b). unfold_M; simpl.
      apply Forall_app; split; [done|]. constructor; [|done]. eauto.
    + destruct (Nat.eqb (subscribers t) 0).
      * unfold_M; simpl. apply Forall_app; split; [done|]. constructor; [|done]. eauto.
      * unfold mbind at 1, M_bind at 1.
        pose proof (play_turn_spec code t b n w) as Hs.
        destruct (play_turn code t b n w) as [[[b' n']|e] w'].
        -- destruct Hs as (G & mv & cm & fb & HG & -> & -> & Hg & Hc).
           apply IH.
           ++ rewrite Hg. eauto.
           ++ rewrite Hc. apply Forall_app; split; [done|]. constructor; [|done].
              rewrite Hg. eauto.
        -- destruct Hs as (G & HG & Hg & Hc). simpl. rewrite Hc. exact HP.
Qed.

Lemma run_game_commits g env :
  P (set_is_paused false (set_status IN_PROGRESS g)) ->
  L (set_is_paused false (set_status IN_PROGRESS g)) (Chess.board_of (board_fen g))
    (length (moves g) / 2 + 1) ->
  Forall P (commits (snd (run_game code (Some g) env))).
Proof.
  intros HP HL. unfold run_game, run_game_body. unfold_M; simpl.
  destruct (viewer_arrives (wait_counts env)).
  - apply game_loop_commits; simpl; [exact HL|]. constructor; [exact HP | done].
  - simpl. constructor; [exact HP|]. constructor; [|done]. eauto.
Qed.

End LoopInvariant.

Lemma half_succ_even k : Nat.even k = true -> S k / 2 = k / 2.
Proof.
  intros H. apply Nat.even_spec in H as [j ->].
  replace (S (2 * j)) with (1 + j * 2) by lia. replace (2 * j) with (j * 2) by lia.
  rewrite Nat.div_add, Nat.div_mul by lia. reflexivity.
Qed.

Lemma half_succ_odd k : Nat.even k = false -> S k / 2 = S (k / 2).
Proof.
  intros H. assert (Nat.odd k = true) as Ho by (rewrite <- Nat.negb_even, H; reflexivity).
  apply Nat.odd_spec in Ho as [j ->].
  replace (S (2 * j + 1)) with ((j + 1) * 2) by lia.
  replace (2 * j + 1) with (1 + j * 2) by lia.
  rewrite Nat.div_add, Nat.div_mul by lia. simpl. lia.
Qed.

Lemma ply_color_S k : ply_color (S k) = Chess.other (ply_color k).
Proof. unfold ply_color. rewrite Nat.even_succ, <- Nat.negb_even. by destruct (Nat.even k). Qed.

Lemma numbered_snoc ms row :
  numbered ms ->
  move_number row = length ms / 2 + 1 -> color row = ply_color (length ms) ->
  numbered (ms ++ [row])%list.
Proof.
  intros Hms Hn Hc i r Hi. apply lookup_app_Some in Hi as [Hi | [Hlen Hi]].
  - exact (Hms i r Hi).
  - apply list_lookup_singleton_Some in Hi as [Hi <-].
    assert (i = length ms) as -> by lia. done.
Qed.

(** One turn keeps the numbering, and the loop's board and move number
    stay those the stored game says. *)
Lemma numbering_turn code g b n G mv cm fb :
  numbering_ok g /\ Chess.pos b = board_fen g /\ n = length (moves g) / 2 + 1 ->
  session_only g G ->
  let g' := add_move (mkMoveRow code n (Chess.turn (Chess.pos b)) (Chess.uci mv)
                        (Chess.san b mv) cm fb)
              (set_current_turn
                 (if bool_decide (Chess.turn (Chess.pos b) = Chess.WHITE)
                  then Chess.BLACK else Chess.WHITE)
                 (set_board_fen (Chess.pos (Chess.push b mv)) G)) in
  numbering_ok g' /\ Chess.pos (Chess.push b mv) = board_fen g' /\
  (if bool_decide (Chess.turn (Chess.pos b) = Chess.WHITE) then n else S n)
    = length (moves g') / 2 + 1.
Proof.
  intros [[Hnum Hturn] [Hb Hn]] HG g'.
  assert (moves g' = (moves g ++ [mkMoveRow code n (Chess.turn (Chess.pos b)) (Chess.uci mv)
                        (Chess.san b mv) cm fb])%list) as Hm
    by (subst g'; simpl; rewrite (session_only_moves _ _ HG); reflexivity).
  assert (Chess.turn (Chess.pos b) = ply_color (length (moves g))) as Ht
    by (rewrite Hb; exact Hturn).
  split_and!.
  - split.
    + rewrite Hm. apply numbered_snoc; [exact Hnum | exact Hn | exact Ht].
    + unfold turn_consistent. rewrite Hm, length_app. simpl.
      rewrite ?pos_push, push_pos_turn, Ht, Nat.add_1_r, ply_color_S. reflexivity.
  - reflexivity.
  - rewrite Hm, length_app. cbn [length]. rewrite Ht, Hn, !Nat.add_1_r. unfold ply_color.
    destruct (Nat.even (length (moves g))) eqn:E.
    + rewrite bool_decide_eq_true_2 by reflexivity. rewrite half_succ_even by exact E. reflexivity.
    + rewrite bool_decide_eq_false_2 by discriminate. rewrite half_succ_odd by exact E. reflexivity.
Qed.

(** C7: if the stored game's move rows are numbered in pairs (the row at
    index [i] has number [i / 2 + 1] and is White's exactly when [i] is
    even) and its position has the side to move that its move count
    says, then every game [run_game] commits has the same property: the
    number is recomputed from the stored move count, starts at 1, is
    shared by the White and the Black ply of a full turn, and goes up
    only after Black has moved. *)
Theorem run_game_move_numbering code g env (H : numbering_ok g) :
  Forall numbering_ok (commits (snd (run_game code (Some g) env))).
Proof.
  apply (run_game_commits numbering_ok
           (fun g b n => numbering_ok g /\ Chess.pos b = board_fen g /\
                         n = length (moves g) / 2 + 1)).
  - intros ? ? ? [? _]. assumption.
  - intros g0 b n G mv cm fb HL HG. exact (numbering_turn code g0 b n G mv cm fb HL HG).
  - intros ? ? ? [Hn _]. exact Hn.
  - intros ? ? ? ? [Hn _]. exact Hn.
  - exact H.
  - split_and!; [exact H | reflexivity | reflexivity].
Qed.

Lemma run_game_move_numbering_witness :
  numbering_ok (new_game "G1") /\
  Forall numbering_ok
    (commits (snd (run_game "G1" (Some (new_game "G1"))
                     {| wait_counts := [1]; turns := [] |}))).
Proof.
  assert (numbering_ok (new_game "G1")) as H.
  { split; [intros i row Hi; cbn in Hi; discriminate | reflexivity]. }
  split; [exact H | apply (run_game_move_numbering "G1" (new_game "G1")); exact H].
Defined.

(** C8: every game [run_game] commits (at the start, on a pause for lack
    of viewers, on completion) is paused only if its status is
    [IN_PROGRESS]. *)
Theorem run_game_pause_only_in_progress code stored env :
  Forall pause_ok (commits (snd (run_game code stored env))).
Proof.
  destruct stored as [g|]; [|constructor].
  apply (run_game_commits pause_ok
           (fun g _ _ => is_paused g = false /\ status g = IN_PROGRESS)).
  - intros ? ? ? [Hp _] Hp'. congruence.
  - intros g' b n G mv cm fb [Hp Hs] HG. simpl.
    rewrite (session_only_is_paused _ _ HG), (session_only_status _ _ HG). done.
  - intros ? ? ? [_ Hs] _. exact Hs.
  - intros ? ? ? ? [Hp _] Hp'. simpl in Hp'. congruence.
  - discriminate.
  - split; reflexivity.
Qed.

(** C5: in one turn, the side to move calls the CLI with [--resume]
    and its stored session token when that token is non-empty, and with
    [--system-prompt] otherwise; afterwards its stored token is the
    session id of the response when that is non-empty (so a later
    response with a new id replaces it), and is unchanged otherwise; the
    other side's token is untouched. *)
Theorem play_turn_session_token code t b n w :
  let white := bool_decide (Chess.turn (Chess.pos b) = Chess.WHITE) in
  let stored := if white then white_session_id (game w) else black_session_id (game w) in
  let other := if white then black_session_id (game w) else white_session_id (game w) in
  let w' := snd (play_turn code t b n w) in
  exists prompt,
    let sysp := LLM.build_system_prompt (color_value (Chess.turn (Chess.pos b))) in
    let returned :=
      LLM.session_id (snd (if Py.truthy stored
                           then LLM.call_claude_cli prompt stored None (cli t)
                           else LLM.call_claude_cli prompt None (Some sysp) (cli t))) in
    calls w' =
      (calls w ++
       [["claude"; "-p"; prompt; "--output-format"; "json"; "--model"; "haiku"] ++
        (if Py.truthy stored then ["--resume"; Py.str_opt stored]
         else ["--system-prompt"; sysp])])%list /\
    (if white then white_session_id (game w') else black_session_id (game w')) =
      (if Py.truthy returned then returned else stored) /\
    (if white then black_session_id (game w') else white_session_id (game w')) = other.
Proof.
  destruct w as [g cs ps cl ws]. cbv zeta.
  unfold play_turn; unfold_M; cbn_engine.
  match goal with |- context [LLM.build_chess_prompt ?a ?b ?c ?d] =>
    exists (LLM.build_chess_prompt a b c d) end.
  destruct (bool_decide _) eqn:Hw.
  all: cbn_engine.
  all: destruct (Py.truthy _) eqn:Hs.
  all: cbn_engine.
  all: match goal with |- context [LLM.call_claude_cli ?p ?s ?sp ?o] =>
         assert (fst (LLM.call_claude_cli p s sp o) = LLM.cli_cmd p s sp) as Hcmd by reflexivity;
         destruct (LLM.call_claude_cli p s sp o) as [cmd resp] eqn:Hc end.
  all: cbn_engine.
  all: cbn [fst] in Hcmd.
  all: subst cmd.
  all: unfold LLM.cli_cmd.
  all: rewrite ?Hs.
  all: cbn_engine.
  all: clear Hc.
  all: repeat (case_match; cbn_engine).
  all: simplify_eq/=.
  all: split_and!; reflexivity.
Qed.

Lemma parse_empty :
  LLM.parse_chess_response "" =
  ({| LLM.move := None; LLM.comment := None; LLM.commentary := None;
      LLM.my_emotion := None; LLM.opponent_emotion := None |}, []).
Proof. vm_compute. reflexivity. Qed.

Lemma validate_none b : validate_and_get_move b None = Py.Ok None.
Proof. reflexivity. Qed.

Lemma random_legal b r :
  Chess.legal_moves b <> [] ->
  exists mv, get_random_legal_move b r = Py.Ok mv /\ In mv (Chess.legal_moves b).
Proof.
  intros H. unfold get_random_legal_move.
  destruct (Chess.legal_moves b) as [|x l] eqn:E; [done|].
  eexists; split; [reflexivity|]. apply nth_In, Nat.mod_upper_bound. simpl; lia.
Qed.

(** C4: when the CLI is not found, exits with a non-zero status, prints
    a JSON value that is not an object, or fails otherwise, the response
    text is empty and the turn, on a position with a legal move, plays a
    legal move chosen at random, recorded with [was_fallback = True] and
    the fallback notice as its comment. When the CLI prints something
    that is not JSON at all, that output is the response text. *)
Theorem empty_response_falls_back code t b n w
  (Hcli : cli t = LLM.CliNotFound \/
          (exists rc out err, cli t = LLM.CliExit rc out err /\ rc <> 0%Z) \/
          (exists msg err, cli t = LLM.CliExit 0 (LLM.OutNonDict msg) err) \/
          (exists msg, cli t = LLM.CliError msg))
  (Hlegal : Chess.legal_moves b <> []) :
  (exists mv n' row,
     In mv (Chess.legal_moves b) /\
     fst (play_turn code t b n w) = Py.Ok (Chess.push b mv, n') /\
     moves (game (snd (play_turn code t b n w))) = (moves (game w) ++ [row])%list /\
     move_uci row = Chess.uci mv /\ was_fallback row = true /\
     comment row = Some "[FALLBACK - LLM suggested invalid move 'None']") /\
  (forall prompt s sp raw err,
     LLM.text (snd (LLM.call_claude_cli prompt s sp (LLM.CliExit 0 (LLM.OutInvalid raw) err)))
       = Some raw).
Proof.
  split; [| intros; reflexivity].
  destruct (random_legal b (rand t) Hlegal) as [mv [Hr Hin]].
  destruct w as [g cs ps cl ws].
  unfold play_turn; unfold_M; cbn_engine.
  assert (forall p s sp, LLM.text (snd (LLM.call_claude_cli p s sp (cli t))) = Some "") as Htext.
  { intros p s sp.
    destruct Hcli as [-> | [(rc & out & err & -> & Hrc) | [(msg & err & ->) | (msg & ->)]]];
      cbn; try reflexivity.
    apply Z.eqb_neq in Hrc. rewrite Hrc. reflexivity. }
  destruct (bool_decide _); cbn_engine.
  all: destruct (Py.truthy _); cbn_engine.
  all: match goal with |- context [LLM.call_claude_cli ?p ?s ?sp ?o] =>
         pose proof (Htext p s sp) as Ht;
         destruct (LLM.call_claude_cli p s sp o) as [cmd resp] end.
  all: cbn [snd] in Ht; cbn_engine; rewrite Ht; cbn_engine.
  all: rewrite parse_empty; cbn_engine; rewrite validate_none; cbn_engine; rewrite Hr; cbn_engine.
  all: destruct (Py.truthy (LLM.session_id resp)); cbn_engine.
  all: eexists mv, _, _; split_and!; [exact Hin | reflexivity ..].
Qed.

Lemma empty_response_falls_back_witness :
  exists mv n' row,
    In mv (Chess.legal_moves (Chess.board_of Chess.start_position)) /\
    fst (play_turn "G1" {| subscribers := 1; cli := LLM.CliNotFound; rand := 7; audio := None |}
           (Chess.board_of Chess.start_position) 1
           (mkWorld (new_game "G1") [] [] [] [])) =
      Py.Ok (Chess.push (Chess.board_of Chess.start_position) mv, n') /\
    moves (game (snd (play_turn "G1"
                         {| subscribers := 1; cli := LLM.CliNotFound; rand := 7; audio := None |}
                         (Chess.board_of Chess.start_position) 1
                         (mkWorld (new_game "G1") [] [] [] [])))) =
      (moves (new_game "G1") ++ [row])%list /\
    move_uci row = Chess.uci mv /\ was_fallback row = true /\
    comment row = Some "[FALLBACK - LLM suggested invalid move 'None']".
Proof.
  refine (proj1 (empty_response_falls_back "G1"
           {| subscribers := 1; cli := LLM.CliNotFound; rand := 7; audio := None |}
           (Chess.board_of Chess.start_position) 1 (mkWorld (new_game "G1") [] [] [] []) _ _)).
  - left. reflexivity.
  - vm_compute. discriminate.
Defined.

End EngineFacts.

Module ParserFacts.
Import Re Props.

(** What a successful match of each construct consumed. *)
Section MatcherInversion.
Context {R : Type}.

Lemma star_greedy_inv p s (k : list ascii -> option R) x :
  star_greedy p s k = Some x ->
  exists pre s', s = (pre ++ s')%list /\ Forall (fun a => p a = true) pre /\ k s' = Some x.
Proof.
  induction s as [|a s IH]; simpl; intros H.
  - exists [], []. auto.
  - destruct (p a) eqn:Ep.
    + destruct (star_greedy p s k) eqn:Es.
      * injection H as <-. destruct (IH eq_refl) as (pre & s' & -> & Hf & Hk).
        exists (a :: pre), s'. auto.
      * exists [], (a :: s). auto.
    + exists [], (a :: s). auto.
Qed.

Lemma star_lazy_inv p s (k : list ascii -> option R) x :
  star_lazy p s k = Some x ->
  exists pre s', s = (pre ++ s')%list /\ Forall (fun a => p a = true) pre /\ k s' = Some x.
Proof.
  induction s as [|a s IH]; simpl; intros H.
  - destruct (k []) eqn:Ek; [|discriminate]. exists [], []. injection H as <-. auto.
  - destruct (k (a :: s)) eqn:Ek.
    + injection H as <-. exists [], (a :: s). auto.
    + destruct (p a) eqn:Ep; [|discriminate].
      destruct (IH H) as (pre & s' & -> & Hf & Hk). exists (a :: pre), s'. auto.
Qed.

Lemma m_star_inv lz p s c (k : list ascii -> caps -> option R) x :
  m (Star lz p) s c k = Some x ->
  exists pre s', s = (pre ++ s')%list /\ Forall (fun a => p a = true) pre /\ k s' c = Some x.
Proof.
  simpl. destruct lz; [apply star_lazy_inv | apply star_greedy_inv].
Qed.

(** A case-insensitive literal matches a prefix equal to it up to case,
    and captures nothing. *)
Lemma m_lit_inv l s c (k : list ascii -> caps -> option R) x :
  m (lit_l true l) s c k = Some x ->
  exists pre s', s = (pre ++ s')%list /\ map Py.lower pre = map Py.lower l /\ k s' c = Some x.
Proof.
  revert s. induction l as [|a l IH]; intros s H; simpl in H.
  - exists [], s. auto.
  - destruct s as [|y s]; [discriminate|].
    destruct (Ascii.eqb (Py.lower y) (Py.lower a)) eqn:E; [|discriminate].
    apply Ascii.eqb_eq in E.
    destruct (IH s H) as (pre & s' & -> & Hl & Hk).
    exists (y :: pre), s'. simpl. rewrite E, Hl. auto.
Qed.

End MatcherInversion.

(** [re.search] finds a match of [r] at some position of the text. *)
Lemma search_inv r s c :
  search r s = Some c -> exists i, match_ r (skipn i s) = Some c.
Proof.
  induction s as [|a s IH]; simpl; intros H.
  - exists 0. simpl. destruct (match_ r []); [exact H | discriminate].
  - destruct (match_ r (a :: s)) eqn:E.
    + exists 0. simpl. rewrite E. exact H.
    + destruct (IH H) as [i Hi]. exists (S i). exact Hi.
Qed.

Lemma firstn_length_app (l1 l2 : list ascii) : firstn (length l1) (l1 ++ l2) = l1.
Proof. induction l1 as [|a l1 IH]; simpl; [reflexivity | by rewrite IH]. Qed.

Lemma lstrip_nonspace l : Forall (fun a => nonspace a = true) l -> Py.lstrip l = l.
Proof.
  destruct l as [|a l]; intros H; [reflexivity|].
  inversion H as [|? ? Ha _]; subst. unfold nonspace in Ha. simpl.
  destruct (Py.is_space a); [discriminate | reflexivity].
Qed.

Lemma strip_nonspace l : Forall (fun a => nonspace a = true) l -> Py.strip l = l.
Proof.
  intros H. unfold Py.strip. rewrite (lstrip_nonspace l H).
  rewrite lstrip_nonspace; [apply rev_involutive|]. by apply Forall_rev.
Qed.

(** [\S+] captures at least one character, none of them white space,
    so an emotion field the parser extracts is never empty. *)
Lemma extract_emotion_nonempty label text v :
  LLM.extract_field (LLM.EMOTION_re label) text = Some v -> v <> "".
Proof.
  unfold LLM.extract_field.
  destruct (search (LLM.EMOTION_re label) (Py.to_list text)) as [c|] eqn:Hs; [|discriminate].
  destruct (search_inv _ _ _ Hs) as [i Hi]. clear Hs.
  unfold match_, LLM.EMOTION_re in Hi. cbn [m] in Hi. unfold lit in Hi.
  destruct (m_lit_inv _ _ _ _ _ Hi) as (pre & s1 & _ & _ & H1). clear Hi.
  destruct (star_greedy_inv _ _ _ _ H1) as (pre2 & s2 & _ & _ & H2). clear H1.
  unfold plus in H2. cbn [m] in H2.
  destruct s2 as [|a s4]; [discriminate|].
  destruct (nonspace a) eqn:Ha; [|discriminate].
  destruct (star_greedy_inv _ _ _ _ H2) as (pre3 & s3 & -> & Hf & H3). clear H2.
  injection H3 as <-. simpl.
  replace (S (length (pre3 ++ s3)) - length s3) with (S (length pre3))
    by (rewrite length_app; lia).
  simpl. rewrite firstn_length_app.
  intros Hv. injection Hv as <-.
  rewrite strip_nonspace by (constructor; assumption). discriminate.
Qed.

Lemma validate_emotion_ok what e :
  (forall v, e = Some v -> v <> "") ->
  emotion_ok (fst (LLM.validate_emotion what e)).
Proof.
  intros Hne. destruct e as [v|]; simpl; [|exact I].
  assert (String.eqb v "" = false) as Hv by (apply String.eqb_neq; exact (Hne v eq_refl)).
  rewrite Hv. simpl. destruct (LLM.is_valid_emotion v) eqn:E; simpl.
  - unfold LLM.is_valid_emotion in E. apply existsb_exists in E as (x & Hx & Ex).
    apply String.eqb_eq in Ex. subst x. exact Hx.
  - repeat (first [left; reflexivity | right]).
Qed.

Lemma parse_emotion_fields text :
  LLM.my_emotion (fst (LLM.parse_chess_response text)) =
    fst (LLM.validate_emotion "my_emotion"
           (LLM.extract_field (LLM.EMOTION_re "MY_EMOTION:") text)) /\
  LLM.opponent_emotion (fst (LLM.parse_chess_response text)) =
    fst (LLM.validate_emotion "opponent_emotion"
           (LLM.extract_field (LLM.EMOTION_re "OPPONENT_EMOTION:") text)) /\
  snd (LLM.parse_chess_response text) =
    (snd (LLM.validate_emotion "my_emotion"
            (LLM.extract_field (LLM.EMOTION_re "MY_EMOTION:") text)) ++
     snd (LLM.validate_emotion "opponent_emotion"
            (LLM.extract_field (LLM.EMOTION_re "OPPONENT_EMOTION:") text)))%list.
Proof.
  unfold LLM.parse_chess_response. cbv zeta.
  destruct (LLM.validate_emotion "my_emotion" _) as [me w1].
  destruct (LLM.validate_emotion "opponent_emotion" _) as [oe w2].
  split_and!; reflexivity.
Qed.

Lemma validate_emotion_some what v :
  v <> "" ->
  LLM.validate_emotion what (Some v) =
    if LLM.is_valid_emotion v then (Some v, [])
    else (Some "stone_wall", ["Invalid " ++ what ++ ": " ++ v ++ ", defaulting to stone_wall"]).
Proof.
  intros Hne. simpl.
  assert (String.eqb v "" = false) as Hv by (apply String.eqb_neq; exact Hne).
  rewrite Hv. simpl. destruct (LLM.is_valid_emotion v); reflexivity.
Qed.

(** C6: for every text, each emotion tag the parser extracts is checked
    against the nine valid tags: a valid one is kept, any other one is
    replaced by ["stone_wall"] and a warning naming it is logged, and an
    absent one stays absent; so each emotion tag the parser returns is
    either absent or one of the nine valid tags: [MY_EMOTION: overjoyed]
    gives the tag ["stone_wall"] and one warning. *)
Theorem parse_emotions_valid text :
  emotion_ok (LLM.my_emotion (fst (LLM.parse_chess_response text))) /\
  emotion_ok (LLM.opponent_emotion (fst (LLM.parse_chess_response text))) /\
  LLM.my_emotion (fst (LLM.parse_chess_response "MY_EMOTION: overjoyed")) = Some "stone_wall" /\
  snd (LLM.parse_chess_response "MY_EMOTION: overjoyed") =
    ["Invalid my_emotion: overjoyed, defaulting to stone_wall"] /\
  length LLM.VALID_EMOTIONS = 9 /\ NoDup LLM.VALID_EMOTIONS /\
  (forall v, LLM.extract_field (LLM.EMOTION_re "MY_EMOTION:") text = Some v ->
     LLM.my_emotion (fst (LLM.parse_chess_response text)) =
       Some (if LLM.is_valid_emotion v then v else "stone_wall") /\
     (LLM.is_valid_emotion v = false ->
      In ("Invalid my_emotion: " ++ v ++ ", defaulting to stone_wall")
         (snd (LLM.parse_chess_response text)))) /\
  (forall v, LLM.extract_field (LLM.EMOTION_re "OPPONENT_EMOTION:") text = Some v ->
     LLM.opponent_emotion (fst (LLM.parse_chess_response text)) =
       Some (if LLM.is_valid_emotion v then v else "stone_wall") /\
     (LLM.is_valid_emotion v = false ->
      In ("Invalid opponent_emotion: " ++ v ++ ", defaulting to stone_wall")
         (snd (LLM.parse_chess_response text)))) /\
  (LLM.extract_field (LLM.EMOTION_re "MY_EMOTION:") text = None ->
   LLM.my_emotion (fst (LLM.parse_chess_response text)) = None) /\
  (LLM.extract_field (LLM.EMOTION_re "OPPONENT_EMOTION:") text = None ->
   LLM.opponent_emotion (fst (LLM.parse_chess_response text)) = None).
Proof.
  destruct (parse_emotion_fields text) as (Hme & Hoe & Hw).
  split_and!; [| | vm_compute; reflexivity | vm_compute; reflexivity
              | reflexivity | apply (bool_decide_unpack _); vm_compute; reflexivity | | | |].
  - rewrite Hme. apply validate_emotion_ok.
    intros v H. exact (extract_emotion_nonempty _ _ _ H).
  - rewrite Hoe. apply validate_emotion_ok.
    intros v H. exact (extract_emotion_nonempty _ _ _ H).
  - intros v Hv. rewrite Hme, Hw, Hv.
    rewrite (validate_emotion_some _ _ (extract_emotion_nonempty _ _ _ Hv)).
    destruct (LLM.is_valid_emotion v); simpl; split; try reflexivity.
    + intros H; discriminate.
    + intros _. left. reflexivity.
  - intros v Hv. rewrite Hoe, Hw, Hv.
    rewrite (validate_emotion_some _ _ (extract_emotion_nonempty _ _ _ Hv)).
    destruct (LLM.is_valid_emotion v); simpl; split; try reflexivity.
    + intros H; discriminate.
    + intros _. apply in_or_app. right. left. reflexivity.
  - intros Hn. rewrite Hme, Hn. reflexivity.
  - intros Hn. rewrite Hoe, Hn. reflexivity.
Qed.

(** C3 (as the code is): the parser has no second pass over the text:
    when no case-insensitive [MOVE:] label occurs anywhere in it, the
    move token is [None], whatever move the text contains, and the
    resolver reports no move for any board. *)
Theorem parse_move_needs_label text
  (H : forall i, map Py.lower (firstn 5 (skipn i (Py.to_list text))) <> Py.to_list "move:") :
  LLM.move (fst (LLM.parse_chess_response text)) = None /\
  forall b, Engine.validate_and_get_move b (LLM.move (fst (LLM.parse_chess_response text)))
              = Py.Ok None.
Proof.
  assert (LLM.move (fst (LLM.parse_chess_response text)) = None) as Hm.
  { unfold LLM.parse_chess_response. cbv zeta.
    destruct (LLM.validate_emotion "my_emotion" _) as [me w1].
    destruct (LLM.validate_emotion "opponent_emotion" _) as [oe w2]. simpl.
    unfold LLM.extract_field.
    destruct (search LLM.MOVE_re (Py.to_list text)) as [c|] eqn:Hs; [exfalso|reflexivity].
    destruct (search_inv _ _ _ Hs) as [i Hi]. clear Hs.
    unfold match_, LLM.MOVE_re in Hi. cbn [m] in Hi. unfold lit in Hi.
    destruct (m_lit_inv _ _ _ _ _ Hi) as (pre & s' & Hsplit & Hl & _).
    change (map Py.lower (Py.to_list "MOVE:")) with (Py.to_list "move:") in Hl.
    apply (H i). rewrite Hsplit.
    assert (length pre = 5) as Hlen
      by (rewrite <- (length_map Py.lower pre), Hl; reflexivity).
    rewrite <- Hlen, firstn_length_app. exact Hl. }
  split; [exact Hm | intros b; rewrite Hm; reflexivity].
Qed.

Lemma parse_move_needs_label_witness :
  (forall i, map Py.lower (firstn 5 (skipn i (Py.to_list "I play e4"))) <> Py.to_list "move:") /\
  LLM.move (fst (LLM.parse_chess_response "I play e4")) = None.
Proof.
  assert (forall i, map Py.lower (firstn 5 (skipn i (Py.to_list "I play e4")))
                      <> Py.to_list "move:") as H.
  { intros i. destruct (Nat.lt_ge_cases i 9) as [Hi|Hi].
    - do 9 (destruct i as [|i]; [vm_compute; discriminate|]). lia.
    - rewrite skipn_all2 by (vm_compute; lia). vm_compute. discriminate. }
  split; [exact H | exact (proj1 (parse_move_needs_label "I play e4" H))].
Defined.

End ParserFacts.

Module SSEFacts.
Import SSE Props.

Lemma put_connections x qs m :
  _connections (fold_left (put x) qs m) = _connections m.
Proof. revert m. induction qs as [|q qs IH]; intros m; simpl; [reflexivity | by rewrite IH]. Qed.

Lemma in_streams_of l code q : In q (streams_of l code) <-> In (q, code) l.
Proof.
  unfold streams_of. rewrite in_map_iff. split.
  - intros [[q' c] [Hq Hin]]. simpl in Hq. subst q'.
    apply filter_In in Hin as [Hin Hc]. apply String.eqb_eq in Hc. simpl in Hc. subst c. exact Hin.
  - intros Hin. exists (q, code). split; [reflexivity|].
    apply filter_In. split; [exact Hin | apply String.eqb_refl].
Qed.

Lemma streams_of_app l1 l2 code :
  streams_of (l1 ++ l2)%list code = (streams_of l1 code ++ streams_of l2 code)%list.
Proof. unfold streams_of. rewrite List.filter_app, map_app. reflexivity. Qed.

Lemma nodup_same_key (l : list (qid * string)) q a b :
  NoDup (map fst l) -> In (q, a) l -> In (q, b) l -> a = b.
Proof.
  induction l as [|[q' c] l IH]; simpl; [tauto|].
  intros Hnd Ha Hb. inversion Hnd as [|? ? Hnotin Hnd']; subst. rewrite list_elem_of_In in Hnotin.
  destruct Ha as [Ha|Ha], Hb as [Hb|Hb]; simplify_eq; auto.
  - exfalso. apply Hnotin. apply in_map_iff. exists (q, b). auto.
  - exfalso. apply Hnotin. apply in_map_iff. exists (q, a). auto.
Qed.

Lemma streams_of_cons q c l code :
  streams_of ((q, c) :: l) code =
  if String.eqb c code then q :: streams_of l code else streams_of l code.
Proof. unfold streams_of. simpl. by destruct (String.eqb c code). Qed.

Lemma drop_live_cons q q' c l :
  drop_live q ((q', c) :: l) =
  if Nat.eqb q' q then drop_live q l else (q', c) :: drop_live q l.
Proof. unfold drop_live. simpl. by destruct (Nat.eqb q' q). Qed.

Lemma drop_live_notin q l : ~ In q (map fst l) -> drop_live q l = l.
Proof.
  induction l as [|[q' c] l IH]; intros H; [reflexivity|].
  rewrite drop_live_cons. simpl in H.
  destruct (Nat.eqb q' q) eqn:E.
  - apply Nat.eqb_eq in E. subst. tauto.
  - f_equal. apply IH. tauto.
Qed.

Lemma list_remove_streams l q code :
  NoDup (map fst l) -> In (q, code) l ->
  list_remove q (streams_of l code) = Some (streams_of (drop_live q l) code).
Proof.
  induction l as [|[q' c] l IH]; [simpl; tauto|].
  intros Hnd Hin. simpl in Hin.
  inversion Hnd as [|? ? Hnotin Hnd']; subst. rewrite list_elem_of_In in Hnotin.
  rewrite streams_of_cons, drop_live_cons.
  destruct (Nat.eqb q' q) eqn:Eq.
  - apply Nat.eqb_eq in Eq. subst q'.
    assert (c = code) as ->.
    { destruct Hin as [Hin|Hin]; [congruence|].
      exfalso. apply Hnotin. apply in_map_iff. exists (q, code). auto. }
    rewrite String.eqb_refl. simpl. rewrite Nat.eqb_refl, drop_live_notin by exact Hnotin.
    reflexivity.
  - assert (In (q, code) l) as Hin'.
    { destruct Hin as [Hin|Hin]; [|exact Hin].
      injection Hin as -> _. rewrite Nat.eqb_refl in Eq. discriminate. }
    rewrite streams_of_cons.
    destruct (String.eqb c code); [|exact (IH Hnd' Hin')].
    simpl. rewrite Nat.eqb_sym, Eq, (IH Hnd' Hin'). reflexivity.
Qed.

Lemma streams_of_drop_notin l q code :
  ~ In q (streams_of l code) -> streams_of (drop_live q l) code = streams_of l code.
Proof.
  induction l as [|[q' c] l IH]; intros H; [reflexivity|].
  rewrite drop_live_cons. rewrite streams_of_cons in H |- *.
  destruct (Nat.eqb q' q) eqn:Eq, (String.eqb c code) eqn:Ec.
  - apply Nat.eqb_eq in Eq. subst. simpl in H. tauto.
  - apply IH. exact H.
  - rewrite streams_of_cons, Ec. f_equal. apply IH. simpl in H. tauto.
  - rewrite streams_of_cons, Ec. apply IH. exact H.
Qed.

Lemma nodup_drop_live q l : NoDup (map fst l) -> NoDup (map fst (drop_live q l)).
Proof.
  induction l as [|[q' c] l IH]; intros Hnd; [constructor|].
  inversion Hnd as [|? ? Hnotin Hnd']; subst. rewrite list_elem_of_In in Hnotin.
  rewrite drop_live_cons. destruct (Nat.eqb q' q); [auto|].
  simpl. constructor; [|auto].
  intros Hin. rewrite list_elem_of_In in Hin. apply Hnotin. apply in_map_iff in Hin as [[x y] [Hx Hin]]. simpl in Hx. subst x.
  apply in_map_iff. exists (q', y). split; [reflexivity|].
  unfold drop_live in Hin. apply filter_In in Hin. tauto.
Qed.

Lemma forall_drop_live (P : qid * string -> Prop) q l : Forall P l -> Forall P (drop_live q l).
Proof.
  intros H. apply List.Forall_forall. intros x Hx. unfold drop_live in Hx.
  apply filter_In in Hx as [Hx _]. exact (proj1 (List.Forall_forall P l) H x Hx).
Qed.

Lemma live_code_in s q code : live_code s q = Some code -> In (q, code) (live s).
Proof.
  unfold live_code. destruct (List.find _ (live s)) as [[q' c]|] eqn:E; [|discriminate].
  simpl. intros H. injection H as ->.
  pose proof (find_some _ _ E) as [Hin Hq]. apply Nat.eqb_eq in Hq. simpl in Hq. subst. exact Hin.
Qed.

(** A stream that is live can always run its [finally] block, and the
    invariant holds afterwards. *)
Lemma end_stream_inv s q code :
  sse_inv s -> In (q, code) (live s) ->
  exists s', end_stream s q code = Some s' /\ sse_inv s'.
Proof.
  intros [Hc [Hnd Hb]] Hin.
  unfold end_stream, subscribe_finally.
  destruct (Hc code) as [Hcode _].
  rewrite Hcode, (list_remove_streams _ _ _ Hnd Hin). simpl.
  eexists; split; [reflexivity|].
  split_and!; simpl.
  - intros code'. unfold conns. simpl.
    destruct (decide (code' = code)) as [->|Hne].
    + destruct (streams_of (drop_live q (live s)) code) as [|x l] eqn:E.
      * rewrite lookup_delete_eq. split; [reflexivity | discriminate].
      * rewrite lookup_insert_eq. split; [reflexivity | discriminate].
    + assert (~ In q (streams_of (live s) code')) as Hq.
      { intros Hq. apply in_streams_of in Hq.
        exact (Hne (nodup_same_key _ _ _ _ Hnd Hq Hin)). }
      rewrite (streams_of_drop_notin _ _ _ Hq).
      destruct (Hc code') as [Hc1 Hc2].
      destruct (streams_of (drop_live q (live s)) code) as [|x l].
      * rewrite lookup_delete_ne by congruence. split; [exact Hc1 | exact Hc2].
      * rewrite lookup_insert_ne by congruence. split; [exact Hc1 | exact Hc2].
  - apply nodup_drop_live. exact Hnd.
  - apply forall_drop_live. exact Hb.
Qed.

Lemma sse_inv_same_conns s s' :
  _connections (mgr s') = _connections (mgr s) -> live s' = live s -> fresh s' = fresh s ->
  sse_inv s -> sse_inv s'.
Proof. unfold sse_inv, conns. intros -> -> ->. tauto. Qed.

Lemma broadcast_connections m code e : _connections (broadcast m code e) = _connections m.
Proof. unfold broadcast. destruct (_connections m !! code); [apply put_connections | reflexivity]. Qed.

Lemma close_game_connections m code : _connections (close_game m code) = _connections m.
Proof. unfold close_game. destruct (_connections m !! code); [apply put_connections | reflexivity]. Qed.

(** With no subscriber for a code, [broadcast] changes nothing. *)
Lemma broadcast_no_subscribers m code e :
  get_subscriber_count m code = 0 -> broadcast m code e = m.
Proof.
  unfold get_subscriber_count, broadcast. intros H.
  destruct (_connections m !! code) as [[|q qs]|]; [reflexivity | discriminate | reflexivity].
Qed.

Lemma subscribe_inv s code :
  sse_inv s ->
  sse_inv (mkSys (subscribe_enter (mgr s) code (fresh s)) (live s ++ [(fresh s, code)])%list
             (S (fresh s)) (delivered s)).
Proof.
  intros [Hc [Hnd Hb]]. split_and!; simpl.
  - intros code'. unfold conns. simpl. rewrite streams_of_app, streams_of_cons.
    destruct (decide (code' = code)) as [->|Hne].
    + rewrite !lookup_insert_eq, String.eqb_refl. simpl.
      destruct (Hc code) as [Hc1 _]. rewrite Hc1.
      split; [reflexivity|]. intros H. injection H as H.
      apply (f_equal length) in H. rewrite length_app in H. simpl in H. lia.
    + rewrite !lookup_insert_ne by congruence.
      assert (String.eqb code code' = false) as -> by (apply String.eqb_neq; congruence).
      simpl. rewrite app_nil_r. exact (Hc code').
  - rewrite map_app. apply NoDup_app. split_and!; [exact Hnd| |apply NoDup_singleton].
    intros x Hx Hin. apply list_elem_of_singleton in Hin. subst x.
    apply list_elem_of_In, in_map_iff in Hx as [[x c] [Hx Hin]]. simpl in Hx. subst x.
    pose proof (proj1 (List.Forall_forall _ _) Hb _ Hin) as Hlt. simpl in Hlt. lia.
  - apply Forall_app. split.
    + eapply Forall_impl; [exact Hb|]. intros [x c] Hx. simpl in *. lia.
    + constructor; [simpl; lia | constructor].
Qed.

Lemma step_inv s a : sse_inv s -> exists s', step s a = Some s' /\ sse_inv s'.
Proof.
  intros Hinv. destruct a as [code | q | q | code e | code]; simpl.
  - eexists; split; [reflexivity | apply subscribe_inv, Hinv].
  - destruct (live_code s q) as [code|] eqn:Hl; [|eauto].
    pose proof (live_code_in _ _ _ Hl) as Hin.
    destruct (queue_items (mgr s) !! q) as [[|[msg|] rest]|];
      try (exists s; split; [reflexivity | exact Hinv]).
    + eexists; split; [reflexivity|].
      eapply sse_inv_same_conns; [..|exact Hinv]; reflexivity.
    + refine (end_stream_inv (mkSys (mkManager (_connections (mgr s))
                 (<[q := rest]> (queue_items (mgr s)))) (live s) (fresh s) (delivered s))
                 q code _ Hin).
      eapply sse_inv_same_conns; [..|exact Hinv]; reflexivity.
  - destruct (live_code s q) as [code|] eqn:Hl; [|eauto].
    exact (end_stream_inv s q code Hinv (live_code_in _ _ _ Hl)).
  - eexists; split; [reflexivity|]. eapply sse_inv_same_conns; [..|exact Hinv];
      [apply broadcast_connections | reflexivity | reflexivity].
  - eexists; split; [reflexivity|]. eapply sse_inv_same_conns; [..|exact Hinv];
      [apply close_game_connections | reflexivity | reflexivity].
Qed.

Lemma run_inv acts : forall s, sse_inv s -> exists s', run s acts = Some s' /\ sse_inv s'.
Proof.
  induction acts as [|a acts IH]; intros s Hs; simpl; [eauto|].
  destruct (step_inv s a Hs) as (s1 & -> & Hs1). simpl. exact (IH s1 Hs1).
Qed.

Lemma sys_init_inv : sse_inv sys_init.
Proof.
  split_and!; simpl.
  - intros code. unfold conns. simpl. rewrite lookup_empty. split; [reflexivity | discriminate].
  - constructor.
  - constructor.
Qed.

(** C9: broadcasting to a code with no subscriber raises nothing,
    queues nothing and changes nothing: the system is left as it was,
    so whatever happens afterwards (new subscribers included) happens
    exactly as if the event had never been sent. *)
Theorem broadcast_without_subscribers_is_lost s code e acts
  (H : get_subscriber_count (mgr s) code = 0) :
  broadcast (mgr s) code e = mgr s /\
  step s (Broadcast code e) = Some s /\
  run s (Broadcast code e :: acts) = run s acts.
Proof.
  pose proof (broadcast_no_subscribers (mgr s) code e H) as Hb.
  assert (step s (Broadcast code e) = Some s) as Hs
    by (simpl; rewrite Hb; destruct s; reflexivity).
  split_and!; [exact Hb | exact Hs | cbn [run]; rewrite Hs; reflexivity].
Qed.

Lemma broadcast_without_subscribers_is_lost_witness :
  get_subscriber_count (mgr sys_init) "G1" = 0 /\
  run sys_init [Broadcast "G1" Schemas.GameStartedEvent; Subscribe "G1"; Next 0] =
  run sys_init [Subscribe "G1"; Next 0].
Proof.
  split; [reflexivity|].
  exact (proj2 (proj2 (broadcast_without_subscribers_is_lost sys_init "G1"
                         Schemas.GameStartedEvent [Subscribe "G1"; Next 0] eq_refl))).
Defined.

(** C10: from an empty bus, after any sequence of subscriptions,
    deliveries, shutdown signals, disconnects and broadcasts, no step
    raises, and for every game code the manager's list is exactly the
    queues of that code's live streams (each subscription added one, each
    ended stream removed its own), so the subscriber count is the number
    of live streams; the code has an entry exactly when the count is
    positive, and with a count of zero a broadcast changes nothing. *)
Theorem subscriber_count_is_live_streams acts :
  exists s, run sys_init acts = Some s /\
  forall code,
    get_subscriber_count (mgr s) code = length (streams_of (live s) code) /\
    conns (mgr s) code = streams_of (live s) code /\
    (_connections (mgr s) !! code = None <-> get_subscriber_count (mgr s) code = 0) /\
    (get_subscriber_count (mgr s) code = 0 -> forall e, step s (Broadcast code e) = Some s).
Proof.
  destruct (run_inv acts sys_init sys_init_inv) as (s & Hrun & [Hc _]).
  exists s. split; [exact Hrun|]. intros code.
  destruct (Hc code) as [Hc1 Hc2].
  assert (get_subscriber_count (mgr s) code = length (conns (mgr s) code)) as Hn by reflexivity.
  split_and!.
  - rewrite Hn, Hc1. reflexivity.
  - exact Hc1.
  - unfold get_subscriber_count. split.
    + intros ->. reflexivity.
    + destruct (_connections (mgr s) !! code) as [[|q qs]|]; simpl; intros H;
        [contradiction | discriminate | reflexivity].
  - intros H e. simpl. rewrite (broadcast_no_subscribers _ _ e H). destruct s; reflexivity.
Qed.

End SSEFacts.

(* ------------------------------------------------------------------ *)
(** ** Runs on concrete inputs *)

Module Runs.
Import Models Engine Scenarios.

(** C1: a move token in algebraic notation that is well formed but
    illegal where it is played is not reported as unresolved:
    [Board.parse_san] raises [IllegalMoveError], which
    [validate_and_get_move] does not catch, so [run_game] raises after
    its start commit, with no move recorded, no fallback and no move
    event. ([Qh5] from the start position; after 1.e4 e5 [Qh5] is legal
    and is played as it is.) *)
Theorem illegal_san_token_raises :
  validate_and_get_move (Chess.board_of Chess.start_position) (Some "Qh5") =
    Py.Err Py.IllegalMoveError /\
  fst (run_new [ok_out "MOVE: Qh5" "w1"]) = Py.Err Py.IllegalMoveError /\
  moves (game (snd (run_new [ok_out "MOVE: Qh5" "w1"]))) = [] /\
  published (snd (run_new [ok_out "MOVE: Qh5" "w1"])) = [("ABC", Schemas.GameStartedEvent)] /\
  map (fun r => (move_san r, was_fallback r))
    (moves (game (snd (run_new [ok_out "MOVE: e4" "w1"; ok_out "MOVE: e5" "b1";
                                 ok_out "MOVE: Qh5" "w1"])))) =
    [("e4", false); ("e5", false); ("Qh5", false)].
Proof. vm_compute. split_and!; reflexivity. Qed.

(** C2: the move event a turn publishes carries neither the narrated
    commentary, nor the audio, nor the two emotion tags: [MoveEvent]
    declares none of these fields, pydantic drops the extra keyword
    arguments, and the JSON sent to subscribers has only the nine
    declared keys, although the parser extracted all of them. *)
Theorem move_event_drops_commentary_and_emotions :
  let text := lines ["MOVE: e4"; "COMMENT: central"; "COMMENTARY: White grabs the centre";
                     "MY_EMOTION: predator"; "OPPONENT_EMOTION: stone_wall"] in
  LLM.parse_chess_response text =
    ({| LLM.move := Some "e4"; LLM.comment := Some "central";
        LLM.commentary := Some "White grabs the centre";
        LLM.my_emotion := Some "predator"; LLM.opponent_emotion := Some "stone_wall" |}, []) /\
  map (fun p => map fst (Schemas.model_dump p.2)) (published (snd (run_new [ok_out text "w1"]))) =
    [["type"];
     ["type"; "move_number"; "color"; "move_uci"; "move_san"; "comment"; "was_fallback";
      "board_fen"; "board_ascii"]].
Proof. vm_compute. split_and!; reflexivity. Qed.

(** Counterexample to C3: the parser [run_game] uses has no secondary
    pass; a text without a [MOVE:] label containing the move [e4] gives
    no move token, and the turn falls back to a random move. *)
Lemma unlabelled_move_not_scanned :
  LLM.move (fst (LLM.parse_chess_response "I play e4")) = None /\
  Chess.parse_san (Chess.board_of Chess.start_position) "e4" = Py.Ok (Chess.mkMove 12 28 None) /\
  map (fun r => (move_uci r, was_fallback r, comment r))
    (moves (game (snd (run_new [ok_out "I play e4" "w1"])))) =
    [("b1a3", true, Some "[FALLBACK - LLM suggested invalid move 'None']")].
Proof. vm_compute. split_and!; reflexivity. Qed.

(** Counterexample to C4: when the CLI exits with 0 but its output is not
    JSON, the response text is the raw output, not empty; a legal move
    in it is played with no fallback. *)
Lemma malformed_payload_text_kept :
  LLM.text (snd (LLM.call_claude_cli "p" None None (LLM.CliExit 0 (LLM.OutInvalid "MOVE: e4") ""))) =
    Some "MOVE: e4" /\
  map (fun r => (move_uci r, was_fallback r, comment r))
    (moves (game (snd (run_new [LLM.CliExit 0 (LLM.OutInvalid "MOVE: e4") ""])))) =
    [("e2e4", false, None)].
Proof. vm_compute. split_and!; reflexivity. Qed.

(** Counterexample to C5: every truthy session id the CLI returns
    replaces the stored one, and later calls resume the new one. *)
Lemma session_token_replaced :
  let w := snd (run_new [ok_out "MOVE: e4" "s1"; ok_out "MOVE: e5" "b1";
                          ok_out "MOVE: Nf3" "s2"; ok_out "MOVE: Nc6" "b1";
                          ok_out "MOVE: Bb5" "s2"]) in
  white_session_id (game w) = Some "s2" /\
  map (skipn 7) (calls w) =
    [["--system-prompt"; LLM.build_system_prompt "white"];
     ["--system-prompt"; LLM.build_system_prompt "black"];
     ["--resume"; "s1"]; ["--resume"; "b1"]; ["--resume"; "s2"]].
Proof. vm_compute. split_and!; reflexivity. Qed.

End Runs.

Module ApiFacts.
Import Models Api Props ApiProps.

Lemma tasks_for_snoc code l x :
  tasks_for code (l ++ [x]) = tasks_for code l + (if String.eqb code x then 1 else 0).
Proof. unfold tasks_for. rewrite List.filter_app, length_app. simpl. by destruct (String.eqb code x). Qed.

Lemma submit_prompt_step code code' c p st :
  let '(r, st1) := submit_prompt code' c p st in
  (both_set code st = true -> both_set code st1 = true) /\
  tasks_for code (tasks st1) =
    tasks_for code (tasks st) + (if started_for code (code', c, p) r then 1 else 0) /\
  (started_for code (code', c, p) r = true -> both_set code st = false) /\
  (started_for code (code', c, p) r = true -> both_set code st1 = true).
Proof.
  unfold submit_prompt.
  destruct (valid_prompt p); cbn [negb].
  2:{ cbn. split_and!; [auto | lia | discriminate | discriminate]. }
  destruct (games st !! code') as [g|] eqn:Hg.
  2:{ cbn. split_and!; [auto | lia | discriminate | discriminate]. }
  destruct (bool_decide _).
  1:{ cbn. split_and!; [auto | lia | discriminate | discriminate]. }
  assert (forall g', (c = Chess.WHITE /\ white_prompt g = None /\ g' = set_white_prompt (Some p) g) \/
                    (c = Chess.BLACK /\ black_prompt g = None /\ g' = set_black_prompt (Some p) g) ->
          is_some (white_prompt g) && is_some (black_prompt g) = false) as Hnb.
  { intros g' [(_ & H & _) | (_ & H & _)]; rewrite H; [reflexivity | apply andb_false_r]. }
  destruct c; [destruct (white_prompt g) eqn:Hw | destruct (black_prompt g) eqn:Hb].
  1,3: cbn; split_and!; [auto | lia | discriminate | discriminate].
  1: set (g' := set_white_prompt (Some p) g).
  2: set (g' := set_black_prompt (Some p) g).
  all: cbn -[tasks_for both_set].
  all: unfold both_set, g'; cbn [games tasks].
  all: destruct (String.eqb_spec code' code) as [<-|Hne];
    [rewrite lookup_insert_eq, Hg | rewrite lookup_insert_ne by congruence];
    rewrite ?String.eqb_refl;
    try (assert (String.eqb code' code = false) as -> by (apply String.eqb_neq; congruence));
    cbn [white_prompt black_prompt set_white_prompt set_black_prompt is_some andb];
    rewrite ?Hw, ?Hb; cbn [is_some andb];
    repeat case_match; rewrite ?tasks_for_snoc, ?String.eqb_refl;
    try (assert (String.eqb code code' = false) as -> by (apply String.eqb_neq; congruence));
    split_and!; intros; simpl in *; try lia; try congruence.
Qed.

(** X1: over any sequence of prompt submissions, [submit_prompt] adds one [run_game] task for a game exactly when an answer reports [game_started] for it, and that happens at most once per game, never for a game whose two prompts were already set. *)
Theorem submissions_start_game_once reqs : forall st code,
  let '(rs, st') := submit_all reqs st in
  tasks_for code (tasks st') = tasks_for code (tasks st) + started_count code reqs rs /\
  started_count code reqs rs + (if both_set code st then 1 else 0) <= 1.
Proof.
  induction reqs as [|[[code' c] p] reqs IH]; intros st code; simpl.
  - destruct (both_set code st); lia.
  - pose proof (submit_prompt_step code code' c p st) as Hs.
    destruct (submit_prompt code' c p st) as [r st1].
    pose proof (IH st1 code) as IH1.
    destruct (submit_all reqs st1) as [rs st2]. simpl.
    destruct Hs as (Hmono & Ht & Hnot & Hnow).
    destruct (started_for code (code', c, p) r).
    + rewrite Hnot, Hnow in * by reflexivity. lia.
    + destruct (both_set code st) eqn:E; [rewrite Hmono in IH1 by reflexivity|]; lia.
Qed.

(** X2: a rejected submission leaves the state unchanged; an accepted one was for a game still waiting for prompts whose prompt of that colour was unset, sets exactly that prompt, keeps the other prompt, status, moves and position, and reports [game_started] exactly when both prompts are now set. *)
Theorem submit_prompt_write_once code c p st :
  let '(r, st') := submit_prompt code c p st in
  (forall e, r = inl e -> st' = st) /\
  (forall resp, r = inr resp ->
     exists g g', games st !! code = Some g /\ games st' = <[code := g']> (games st) /\
       status g = WAITING_FOR_PROMPTS /\ prompt_of c g = None /\ prompt_of c g' = Some p /\
       prompt_of (Chess.other c) g' = prompt_of (Chess.other c) g /\
       status g' = status g /\ moves g' = moves g /\ board_fen g' = board_fen g /\
       game_started resp = is_some (white_prompt g') && is_some (black_prompt g')).
Proof.
  unfold submit_prompt.
  destruct (valid_prompt p); cbn [negb].
  2:{ split; [reflexivity | discriminate]. }
  destruct (games st !! code) as [g|] eqn:Hg.
  2:{ split; [reflexivity | discriminate]. }
  destruct (bool_decide _) eqn:Hs.
  1:{ split; [reflexivity | discriminate]. }
  apply bool_decide_eq_false, dec_stable in Hs.
  destruct c; [destruct (white_prompt g) eqn:Hw | destruct (black_prompt g) eqn:Hb].
  1,3: split; [reflexivity | discriminate].
  all: split; [discriminate|]; intros resp [= <-].
  all: eexists g, _; split_and!; [reflexivity | reflexivity | | | reflexivity ..].
  all: simpl; assumption.
Qed.

(** X3: over any sequence of viewers connecting, [game_events] adds one [run_game] task for a game exactly when the game was paused and in progress and someone connected to it, whatever the number of viewers. *)
Theorem viewers_resume_once codes : forall st code,
  tasks_for code (tasks (connect_all codes st)) =
    tasks_for code (tasks st) +
    (if resumable code st && existsb (String.eqb code) codes then 1 else 0).
Proof.
  induction codes as [|code' codes IH]; intros st code; simpl.
  - rewrite andb_false_r. lia.
  - rewrite IH. unfold game_events, resumable.
    destruct (String.eqb_spec code code') as [<-|Hne].
    + destruct (games st !! code) as [g|] eqn:Hg; simpl; [|rewrite Hg; simpl; lia].
      destruct (is_paused g && bool_decide (status g = IN_PROGRESS)) eqn:E; simpl.
      * rewrite lookup_insert_eq. simpl. rewrite tasks_for_snoc, String.eqb_refl. lia.
      * rewrite Hg, E. simpl. lia.
    + destruct (games st !! code') as [g|] eqn:Hg; simpl; [|reflexivity].
      destruct (is_paused g && bool_decide (status g = IN_PROGRESS)); simpl; [|reflexivity].
      rewrite lookup_insert_ne by congruence. rewrite tasks_for_snoc.
      assert (String.eqb code code' = false) as -> by (apply String.eqb_neq; congruence). lia.
Qed.

Lemma fresh_code_spec attempts gs c :
  fresh_code attempts gs = Some c -> gs !! c = None /\ exists rs, c = generate_game_code 6 rs.
Proof.
  induction attempts as [|rs attempts IH]; simpl; [discriminate|].
  destruct (gs !! generate_game_code 6 rs) eqn:E; [exact IH|].
  intros [= <-]. eauto.
Qed.

Lemma length_of_list l : String.length (Py.of_list l) = length l.
Proof. induction l as [|a l IH]; simpl; [reflexivity | by rewrite IH]. Qed.

Lemma generate_game_code_spec n rs :
  String.length (generate_game_code n rs) = n /\
  Forall (fun a => In a alphabet) (Py.to_list (generate_game_code n rs)).
Proof.
  unfold generate_game_code. split.
  - rewrite length_of_list, length_map, length_seq. reflexivity.
  - unfold Py.to_list, Py.of_list. rewrite list_ascii_of_string_of_list_ascii.
    apply List.Forall_forall. intros a Ha. apply in_map_iff in Ha as [k [<- _]].
    unfold choice. apply nth_In, Nat.mod_upper_bound. discriminate.
Qed.

(** X4: [create_game] stores a new game under a code that no existing game has, six characters long and drawn from the upper-case letters and digits, and changes nothing else. *)
Theorem create_game_fresh_code attempts st c st'
  (H : create_game attempts st = Some (c, st')) :
  games st !! c = None /\
  games st' = <[c := new_game c]> (games st) /\
  String.length c = 6 /\ Forall (fun a => In a alphabet) (Py.to_list c) /\
  events st' = events st /\ tasks st' = tasks st.
Proof.
  unfold create_game in H.
  destruct (fresh_code attempts (games st)) as [c'|] eqn:E; [|discriminate].
  simpl in H. injection H as <- <-.
  destruct (fresh_code_spec _ _ _ E) as [Hn [rs ->]].
  destruct (generate_game_code_spec 6 rs) as [Hl Hf].
  split_and!; try assumption; reflexivity.
Qed.

Lemma create_game_fresh_code_witness :
  let st := mkState (<["AAAAAA" := new_game "AAAAAA"]> ∅) [] [] in
  create_game [[0;0;0;0;0;0]; [1;2;3;4;5;36]] st =
    Some ("BCDEFA", mkState (<["BCDEFA" := new_game "BCDEFA"]> (games st)) [] []) /\
  games st !! "BCDEFA" = None /\
  games (mkState (<["BCDEFA" := new_game "BCDEFA"]> (games st)) [] []) =
    <["BCDEFA" := new_game "BCDEFA"]> (games st) /\
  String.length "BCDEFA" = 6 /\ Forall (fun a => In a alphabet) (Py.to_list "BCDEFA") /\
  events (mkState (<["BCDEFA" := new_game "BCDEFA"]> (games st)) [] []) = events st /\
  tasks (mkState (<["BCDEFA" := new_game "BCDEFA"]> (games st)) [] []) = tasks st.
Proof.
  cbv zeta.
  assert (create_game [[0;0;0;0;0;0]; [1;2;3;4;5;36]]
            (mkState (<["AAAAAA" := new_game "AAAAAA"]> ∅) [] []) =
          Some ("BCDEFA", mkState (<["BCDEFA" := new_game "BCDEFA"]>
                                     (<["AAAAAA" := new_game "AAAAAA"]> ∅)) [] [])) as H
    by reflexivity.
  split; [exact H | exact (create_game_fresh_code _ _ _ _ H)].
Defined.

Lemma move_key_le_iff a b :
  move_key_le a b <->
  move_number a < move_number b \/
  (move_number a = move_number b /\ (is_black a = true -> is_black b = true)).
Proof.
  unfold move_key_le, move_key_leb, is_black.
  rewrite orb_true_iff, andb_true_iff, Nat.ltb_lt, Nat.eqb_eq.
  destruct (negb _), (negb _); simpl; intuition congruence.
Qed.

#[local] Instance move_key_le_trans : Transitive move_key_le.
Proof.
  intros a b c. rewrite !move_key_le_iff. intros Hab Hbc.
  destruct Hab as [Hab | [Hab Hab']], Hbc as [Hbc | [Hbc Hbc']]; [left; lia .. |].
  right. split; [lia | auto].
Qed.

#[local] Instance move_key_le_total : Total move_key_le.
Proof.
  intros a b. rewrite !move_key_le_iff.
  destruct (Nat.lt_trichotomy (move_number a) (move_number b)) as [H | [H | H]];
    [left; left; exact H | | right; left; exact H].
  destruct (is_black a), (is_black b); auto.
Qed.

Lemma Sorted_by_index {A} (R : relation A) (l : list A) :
  (forall i x y, l !! i = Some x -> l !! S i = Some y -> R x y) -> Sorted R l.
Proof.
  induction l as [|x l IH]; intros H; constructor.
  - apply IH. intros i a b Ha Hb. exact (H (S i) a b Ha Hb).
  - destruct l as [|y l]; constructor. exact (H 0 x y eq_refl eq_refl).
Qed.

Lemma numbered_key_le ms i x y :
  numbered ms -> ms !! i = Some x -> ms !! S i = Some y -> move_key_le x y.
Proof.
  intros Hn Hx Hy. destruct (Hn _ _ Hx) as [Nx Cx], (Hn _ _ Hy) as [Ny Cy].
  apply move_key_le_iff. rewrite Nx, Ny. unfold is_black. rewrite Cx, Cy.
  rewrite EngineFacts.ply_color_S. unfold ply_color.
  destruct (Nat.even i) eqn:E.
  - right. rewrite EngineFacts.half_succ_even by exact E. split; [reflexivity|]. simpl. auto.
  - left. rewrite EngineFacts.half_succ_odd by exact E. lia.
Qed.

Lemma numbered_key_inj ms i j x y :
  numbered ms -> ms !! i = Some x -> ms !! j = Some y ->
  move_key_le x y -> move_key_le y x -> x = y.
Proof.
  intros Hn Hx Hy Hxy Hyx.
  destruct (Hn _ _ Hx) as [Nx Cx], (Hn _ _ Hy) as [Ny Cy].
  rewrite move_key_le_iff in Hxy, Hyx.
  assert (move_number x = move_number y /\ is_black x = is_black y) as [Hnum Hb].
  { destruct Hxy as [?|[? ?]], Hyx as [?|[? ?]]; try lia.
    split; [assumption|]. destruct (is_black x), (is_black y); intuition congruence. }
  rewrite Nx, Ny in Hnum. unfold is_black in Hb. rewrite Cx, Cy in Hb. unfold ply_color in Hb.
  assert (i = j) as ->.
  { assert (i / 2 = j / 2) as Hh by lia.
    rewrite (Nat.div_mod_eq i 2), (Nat.div_mod_eq j 2), Hh.
    rewrite <- !Nat.bit0_mod. unfold Nat.testbit. rewrite <- !Nat.negb_even.
    destruct (Nat.even i), (Nat.even j); simpl in Hb; try discriminate; reflexivity. }
  congruence.
Qed.

(** X5: when a game's moves, in whatever order the database returns them, are a numbered sequence of plies, [get_game] lists them in play order. *)
Theorem get_game_moves_in_play_order code st g ms
  (Hg : games st !! code = Some g) (Hperm : moves g ≡ₚ ms) (Hnum : numbered ms) :
  exists resp, get_game code st = inr resp /\ r_moves resp = ms.
Proof.
  unfold get_game. rewrite Hg. eexists; split; [reflexivity|]. simpl.
  apply (Sorted_unique_strong move_key_le).
  - intros x1 x2 H1 H2 H12 H21.
    assert (x1 ∈ ms) as H1' by (rewrite <- Hperm, <- (merge_sort_Permutation move_key_le); exact H1).
    apply list_elem_of_lookup in H1' as [i Hi]. apply list_elem_of_lookup in H2 as [j Hj].
    exact (numbered_key_inj ms i j x1 x2 Hnum Hi Hj H12 H21).
  - apply Sorted_merge_sort. exact move_key_le_total.
  - apply Sorted_by_index. intros i x y Hx Hy. exact (numbered_key_le ms i x y Hnum Hx Hy).
  - rewrite merge_sort_Permutation. exact Hperm.
Qed.

Lemma get_game_moves_in_play_order_witness :
  let m1 := mkMoveRow "G" 1 Chess.WHITE "e2e4" "e4" None false in
  let m2 := mkMoveRow "G" 1 Chess.BLACK "e7e5" "e5" None false in
  let m3 := mkMoveRow "G" 2 Chess.WHITE "g1f3" "Nf3" None false in
  let g := set_status IN_PROGRESS (mkGame "G" WAITING_FOR_PROMPTS None None None None
             Chess.start_position Chess.WHITE None false [m3; m2; m1]) in
  let st := mkState {["G" := g]} [] [] in
  exists resp, get_game "G" st = inr resp /\ r_moves resp = [m1; m2; m3].
Proof.
  cbv zeta.
  apply (get_game_moves_in_play_order "G" _
    (set_status IN_PROGRESS (mkGame "G" WAITING_FOR_PROMPTS None None None None
       Chess.start_position Chess.WHITE None false
       [mkMoveRow "G" 2 Chess.WHITE "g1f3" "Nf3" None false;
        mkMoveRow "G" 1 Chess.BLACK "e7e5" "e5" None false;
        mkMoveRow "G" 1 Chess.WHITE "e2e4" "e4" None false]))).
  - reflexivity.
  - simpl. apply Permutation_sym. exact (Permutation_rev [_; _; _]).
  - intros i row H. destruct i as [|[|[|i]]]; simpl in H; inversion H; subst; split; reflexivity.
Defined.

End ApiFacts.

Module EngineMoreFacts.
Import Models Engine Props EngineProps.

Lemma is_legal_in p mv : Chess.is_legal p mv = true -> In mv (Chess.legal_moves_pos p).
Proof.
  unfold Chess.is_legal. intros H. apply existsb_exists in H as [m [Hm Heq]].
  apply bool_decide_eq_true in Heq. subst. exact Hm.
Qed.

Lemma find_move_legal p f t pr mv :
  Chess.find_move p f t pr = Py.Ok mv -> In mv (Chess.legal_moves_pos p).
Proof.
  unfold Chess.find_move. cbv zeta. case_match eqn:E; intros H; inversion H; subst.
  apply is_legal_in. exact E.
Qed.

Lemma find_some_filter {A} (f g : A -> bool) l m :
  List.find f (List.filter g l) = Some m -> In m l.
Proof.
  intros H. apply find_some in H as [H _]. apply filter_In in H as [H _]. exact H.
Qed.

Lemma ok_in_err l e : ok_in l (Py.Err e).
Proof. intros mv H. discriminate. Qed.

Lemma ok_in_filter l (P : Chess.Move -> bool) :
  ok_in l (match List.filter P l with
           | [] => Py.Err Py.IllegalMoveError
           | [m] => Py.Ok m
           | _ => Py.Err Py.AmbiguousMoveError
           end).
Proof.
  intros mv H. destruct (List.filter P l) as [|m [|m' ms]] eqn:E; try discriminate.
  injection H as <-. left. assert (In m (List.filter P l)) as Hin by (rewrite E; left; reflexivity).
  apply filter_In in Hin as [Hin _]. exact Hin.
Qed.

Ltac solve_ok_in :=
  repeat first
    [ apply ok_in_err
    | apply ok_in_filter
    | match goal with
      | |- ok_in _ (Py.Ok _) => let mv := fresh "mv" in let H := fresh "H" in
          intros mv H; injection H as <-
      | |- ok_in _ (match ?x with _ => _ end) => let E := fresh "E" in destruct x eqn:E
      end
    | solve [right; reflexivity]
    | solve [left; eapply find_some_filter; eassumption]
    | solve [left; eapply find_move_legal; eassumption] ].

Lemma parse_san_legal b s : ok_in (Chess.legal_moves b) (Chess.parse_san b s).
Proof.
  unfold Chess.parse_san, Chess.legal_moves. cbv zeta.
  solve_ok_in.
Qed.

Lemma parse_uci_legal b s : ok_in (Chess.legal_moves b) (Chess.parse_uci b s).
Proof.
  unfold Chess.parse_uci, Chess.legal_moves. cbv zeta.
  solve_ok_in. left. apply is_legal_in. assumption.
Qed.

(** X6: a move returned by [validate_and_get_move] is a legal move of the position or the null move. *)
Theorem validate_and_get_move_legal_or_null b s mv :
  validate_and_get_move b s = Py.Ok (Some mv) ->
  In mv (Chess.legal_moves b) \/ mv = Chess.null_move.
Proof.
  unfold validate_and_get_move. cbv zeta.
  pose proof (parse_san_legal b (Py.str_opt s)) as Hs.
  pose proof (parse_uci_legal b (Py.str_opt s)) as Hu.
  destruct (negb (Py.truthy s)); [discriminate|].
  destruct (Chess.parse_san b (Py.str_opt s)) as [m|[]]; intros H; try discriminate;
    try (injection H as <-; apply Hs; reflexivity);
    destruct (Chess.parse_uci b (Py.str_opt s)) as [m'|[]]; try discriminate;
    injection H as <-; apply Hu; reflexivity.
Qed.

Lemma validate_and_get_move_legal_or_null_witness :
  validate_and_get_move (Chess.board_of Chess.start_position) (Some "e4") =
    Py.Ok (Some (Chess.mkMove 12 28 None)) /\
  (In (Chess.mkMove 12 28 None) (Chess.legal_moves (Chess.board_of Chess.start_position)) \/
   Chess.mkMove 12 28 None = Chess.null_move).
Proof.
  assert (validate_and_get_move (Chess.board_of Chess.start_position) (Some "e4") =
    Py.Ok (Some (Chess.mkMove 12 28 None))) as H by (vm_compute; reflexivity).
  split; [exact H|]. exact (validate_and_get_move_legal_or_null _ _ _ H).
Defined.

(** X7: the null-move tokens ['--'], ['Z0'], ['0000'] and ['@@@@'] are accepted by [validate_and_get_move] as the null move, which moves no piece, passes the turn, and is written ['0000'] and ['--']. *)
Theorem null_tokens_pass_the_turn b :
  Forall (fun tok => validate_and_get_move b (Some tok) = Py.Ok (Some Chess.null_move))
    ["--"; "Z0"; "0000"; "@@@@"] /\
  Chess.pieces (Chess.pos (Chess.push b Chess.null_move)) = Chess.pieces (Chess.pos b) /\
  Chess.turn (Chess.pos (Chess.push b Chess.null_move)) = Chess.other (Chess.turn (Chess.pos b)) /\
  Chess.uci Chess.null_move = "0000" /\ Chess.san b Chess.null_move = "--".
Proof.
  split_and!; [| reflexivity .. ].
  repeat constructor; vm_compute; reflexivity.
Qed.

Lemma stalemate_is_over b : Chess.legal_moves b = [] -> Chess.is_game_over b = true.
Proof.
  intros H. unfold Chess.is_game_over, Chess.outcome. unfold Chess.legal_moves in H.
  cbv zeta. rewrite H, bool_decide_eq_true_2 by reflexivity.
  destruct (Chess.is_checkmate (Chess.pos b)), (Chess.is_insufficient_material (Chess.pos b)); reflexivity.
Qed.

(** X8: [get_random_legal_move] raises [IndexError] exactly when the position has no legal move, and in a position that is not game over it returns a legal move. *)
Theorem random_fallback_never_raises_in_play b r :
  (get_random_legal_move b r = Py.Err Py.IndexError <-> Chess.legal_moves b = []) /\
  (Chess.is_game_over b = false ->
   exists mv, get_random_legal_move b r = Py.Ok mv /\ In mv (Chess.legal_moves b)).
Proof.
  split.
  - unfold get_random_legal_move. destruct (Chess.legal_moves b); split; done.
  - intros Hover. unfold get_random_legal_move.
    destruct (Chess.legal_moves b) as [|x l] eqn:E.
    + rewrite stalemate_is_over in Hover by exact E. discriminate.
    + eexists; split; [reflexivity|]. apply nth_In, Nat.mod_upper_bound. simpl; lia.
Qed.

(** X9: [get_game_result] reports ['unknown'] exactly when the game is not over; otherwise the result is a white win, a black win or a draw, and a checkmate is a win for the side that did not get mated, by ['checkmate']. *)
Theorem get_game_result_cases b :
  (fst (get_game_result b) = "unknown" <-> Chess.is_game_over b = false) /\
  (Chess.is_game_over b = true ->
   In (fst (get_game_result b)) ["white_wins"; "black_wins"; "draw"]) /\
  (Chess.is_checkmate (Chess.pos b) = true ->
   get_game_result b =
     (if bool_decide (Chess.turn (Chess.pos b) = Chess.WHITE) then "black_wins"
      else "white_wins", "checkmate")).
Proof.
  unfold get_game_result, Chess.is_game_over.
  split_and!.
  - destruct (Chess.outcome b) as [[t [[]|]]|]; simpl; split; done.
  - destruct (Chess.outcome b) as [[t [[]|]]|]; simpl; intros H; try discriminate; tauto.
  - intros H. unfold Chess.outcome. rewrite H. simpl.
    destruct (Chess.turn (Chess.pos b)); reflexivity.
Qed.

Lemma game_loop_eq code ts b n :
  game_loop code ts b n =
  if Chess.is_game_over b then finish code b
  else
    match ts with
    | [] => mret InputsExhausted
    | t :: ts' =>
        if Nat.eqb (subscribers t) 0 then
          update_game (set_is_paused true);; commit;; mret ViewersLeft
        else
          r ← play_turn code t b n;
          game_loop code ts' r.1 r.2
    end.
Proof. destruct ts; reflexivity. Qed.

Lemma game_loop_completed code ts : forall b n w w',
  game_loop code ts b n w = (Py.Ok Completed, w') ->
  exists b' w0, Chess.is_game_over b' = true /\ finish code b' w0 = (Py.Ok Completed, w').
Proof.
  induction ts as [|t ts IH]; intros b n w w' H; rewrite game_loop_eq in H;
    destruct (Chess.is_game_over b) eqn:E; cbv beta iota in H;
    try (exists b, w; split; assumption).
  - discriminate.
  - destruct (Nat.eqb (subscribers t) 0); cbv beta iota in H; [discriminate|].
    unfold mbind, M_bind in H. cbv beta in H.
    destruct (play_turn code t b n w) as [[[b' n']|e] w1]; [|discriminate].
    exact (IH _ _ _ _ H).
Qed.

Lemma finish_spec code b w :
  exists r t, get_game_result b = (r, t) /\
  finish code b w =
    (Py.Ok Completed,
     mkWorld (set_result (Some r) (set_status COMPLETED (game w)))
       (commits w ++ [set_result (Some r) (set_status COMPLETED (game w))])
       (published w ++ [(code, Schemas.GameOverEvent r t)]) (calls w) (warnings w)).
Proof.
  unfold finish. destruct (get_game_result b) as [r t]. exists r, t. split; reflexivity.
Qed.

(** X10: when [run_game] completes a game, the last committed game is the final one, marked completed with a result that is a white win, a black win or a draw, and the last event published is the game-over event with that result. *)
Theorem run_game_completed_reports_result code g env w :
  run_game code (Some g) env = (Py.Ok Completed, w) ->
  exists r t, last (commits w) = Some (game w) /\ status (game w) = COMPLETED /\
    result (game w) = Some r /\ In r ["white_wins"; "black_wins"; "draw"] /\
    last (published w) = Some (code, Schemas.GameOverEvent r t).
Proof.
  unfold run_game, run_game_body. EngineFacts.unfold_M. cbv beta iota zeta.
  destruct (viewer_arrives (wait_counts env)); [|discriminate].
  intros H. apply game_loop_completed in H as (b & w0 & Hover & H).
  destruct (finish_spec code b w0) as (r & t & Er & Hf). rewrite Hf in H.
  pose proof (get_game_result_cases b) as (_ & Hres & _).
  specialize (Hres Hover). rewrite Er in Hres.
  injection H as <-. exists r, t. cbn [commits published game]. rewrite !last_app.
  split_and!; try reflexivity. exact Hres.
Qed.

Lemma run_game_completed_reports_result_witness :
  let g := set_board_fen (Chess.pos fools_mate) (new_game "G1") in
  let env := {| wait_counts := [1]; turns := [] |} in
  run_game "G1" (Some g) env = (Py.Ok Completed, snd (run_game "G1" (Some g) env)) /\
  exists r t, last (commits (snd (run_game "G1" (Some g) env))) =
                Some (game (snd (run_game "G1" (Some g) env))) /\
    status (game (snd (run_game "G1" (Some g) env))) = COMPLETED /\
    result (game (snd (run_game "G1" (Some g) env))) = Some r /\
    In r ["white_wins"; "black_wins"; "draw"] /\
    last (published (snd (run_game "G1" (Some g) env))) =
      Some ("G1", Schemas.GameOverEvent r t).
Proof.
  cbv zeta.
  assert (run_game "G1" (Some (set_board_fen (Chess.pos fools_mate) (new_game "G1")))
            {| wait_counts := [1]; turns := [] |} =
          (Py.Ok Completed, snd (run_game "G1" (Some (set_board_fen (Chess.pos fools_mate)
            (new_game "G1"))) {| wait_counts := [1]; turns := [] |}))) as H
    by (vm_compute; reflexivity).
  split; [exact H|]. exact (run_game_completed_reports_result _ _ _ _ H).
Defined.

(** X11: when no viewer arrives during the initial wait, [run_game] publishes only the game-started event, calls the oracle never, plays no move, and leaves the game paused and in progress. *)
Theorem no_viewer_no_turns code g env :
  viewer_arrives (wait_counts env) = false ->
  let '(r, w) := run_game code (Some g) env in
  r = Py.Ok NoViewersAtStart /\ calls w = [] /\
  published w = [(code, Schemas.GameStartedEvent)] /\
  moves (game w) = moves g /\ board_fen (game w) = board_fen g /\
  last (commits w) = Some (game w) /\ is_paused (game w) = true /\
  status (game w) = IN_PROGRESS.
Proof.
  intros H. unfold run_game, run_game_body. EngineFacts.unfold_M. cbv beta iota zeta.
  rewrite H. cbv beta iota zeta. split_and!; reflexivity.
Qed.

Lemma no_viewer_no_turns_witness :
  viewer_arrives [0; 0; 0] = false /\
  let '(r, w) := run_game "G1" (Some (new_game "G1")) {| wait_counts := [0; 0; 0]; turns := [] |} in
  r = Py.Ok NoViewersAtStart /\ calls w = [] /\
  published w = [("G1", Schemas.GameStartedEvent)] /\
  moves (game w) = moves (new_game "G1") /\ board_fen (game w) = board_fen (new_game "G1") /\
  last (commits w) = Some (game w) /\ is_paused (game w) = true /\
  status (game w) = IN_PROGRESS.
Proof.
  split; [reflexivity|].
  exact (no_viewer_no_turns "G1" (new_game "G1") {| wait_counts := [0; 0; 0]; turns := [] |}
           eq_refl).
Defined.

End EngineMoreFacts.

Module SSEMoreFacts.
Import SSE SSEProps.

Lemma to_list_app s1 s2 : Py.to_list (s1 ++ s2) = (Py.to_list s1 ++ Py.to_list s2)%list.
Proof. induction s1 as [|c s1 IH]; simpl; [reflexivity|]. unfold Py.to_list in *. simpl. rewrite IH. reflexivity. Qed.

Lemma line_safe_app s1 s2 : line_safe (s1 ++ s2) = line_safe s1 && line_safe s2.
Proof. unfold line_safe. rewrite to_list_app, forallb_app. reflexivity. Qed.

Lemma hex_safe k : k < 16 -> line_char (hex k) = true.
Proof.
  intros H. do 16 (destruct k as [|k]; [reflexivity|]). lia.
Qed.

Lemma json_escape_safe s : line_safe (json_escape s) = true.
Proof.
  induction s as [|c s IH]; [reflexivity|].
  cbn [json_escape]. cbv zeta. rewrite line_safe_app, IH, andb_true_r.
  destruct (Nat.eqb (nat_of_ascii c) 34); [reflexivity|].
  destruct (Nat.eqb (nat_of_ascii c) 92); [reflexivity|].
  destruct (Nat.eqb (nat_of_ascii c) 10) eqn:E10; [reflexivity|].
  destruct (Nat.eqb (nat_of_ascii c) 13) eqn:E13; [reflexivity|].
  destruct (Nat.eqb (nat_of_ascii c) 9); [reflexivity|].
  destruct (Nat.eqb (nat_of_ascii c) 8); [reflexivity|].
  destruct (Nat.eqb (nat_of_ascii c) 12); [reflexivity|].
  destruct (Nat.ltb (nat_of_ascii c) 32) eqn:E32.
  - apply Nat.ltb_lt in E32. rewrite line_safe_app.
    change (line_safe (String (hex (nat_of_ascii c / 16))
                        (String (hex (nat_of_ascii c mod 16)) EmptyString)))
      with (line_char (hex (nat_of_ascii c / 16)) &&
            (line_char (hex (nat_of_ascii c mod 16)) && true)).
    rewrite (hex_safe (nat_of_ascii c / 16)), (hex_safe (nat_of_ascii c mod 16));
      [reflexivity | apply Nat.mod_upper_bound; lia |].
    apply Nat.Div0.div_lt_upper_bound. lia.
  - unfold line_safe, line_char. cbn. rewrite andb_true_r.
    apply Nat.eqb_neq in E10, E13.
    destruct (Ascii.eqb_spec c Py.nl) as [->|]; [exfalso; apply E10; reflexivity|].
    destruct (Ascii.eqb_spec c "013"%char) as [->|]; [exfalso; apply E13; reflexivity|].
    reflexivity.
Qed.

Lemma digits_safe fuel n acc : line_safe acc = true -> line_safe (Py.digits fuel n acc) = true.
Proof.
  revert n acc. induction fuel as [|fuel IH]; intros n acc H; [exact H|].
  cbn [Py.digits]. cbv zeta.
  assert (line_safe (String (ascii_of_nat (48 + n mod 10)) EmptyString) = true) as Hd.
  { pose proof (Nat.mod_upper_bound n 10 ltac:(lia)) as Hm.
    remember (n mod 10) as d. clear -Hm.
    do 10 (destruct d as [|d]; [reflexivity|]). lia. }
  destruct (Nat.ltb n 10).
  - rewrite line_safe_app, Hd, H. reflexivity.
  - apply IH. rewrite line_safe_app, Hd, H. reflexivity.
Qed.

Lemma json_value_safe v : line_safe (json_value v) = true.
Proof.
  destruct v as [s|n|b|]; simpl.
  - rewrite !line_safe_app, json_escape_safe. reflexivity.
  - apply digits_safe. reflexivity.
  - destruct b; reflexivity.
  - reflexivity.
Qed.

Lemma concat_safe sep l :
  line_safe sep = true -> Forall (fun x => line_safe x = true) l ->
  line_safe (String.concat sep l) = true.
Proof.
  intros Hs Hl. induction Hl as [|x l Hx Hl IH]; [reflexivity|].
  destruct l as [|y l]; simpl.
  - exact Hx.
  - rewrite line_safe_app, Hx, line_safe_app, Hs. exact IH.
Qed.

Lemma model_dump_keys_safe e : Forall (fun kv => line_safe kv.1 = true) (Schemas.model_dump e).
Proof. destruct e; repeat constructor. Qed.

(** X12: every event the manager broadcasts is framed as one SSE [data:] line followed by a blank line: the JSON body contains no line break. *)
Theorem sse_message_is_one_data_line e :
  exists body, Py.to_list (sse_message e) = (Py.to_list "data: " ++ body ++ [Py.nl; Py.nl])%list /\
    Forall (fun a => a <> Py.nl /\ a <> "013"%char) body.
Proof.
  exists (Py.to_list (model_dump_json e)). split.
  - unfold sse_message. rewrite !to_list_app. reflexivity.
  - assert (line_safe (model_dump_json e) = true) as H.
    { unfold model_dump_json. rewrite !line_safe_app. simpl.
      rewrite concat_safe; [reflexivity | reflexivity |].
      pose proof (model_dump_keys_safe e) as Hk.
      apply Forall_map. eapply Forall_impl; [exact Hk|]. intros [k v] Hkv. simpl in *.
      rewrite !line_safe_app, Hkv, json_value_safe. reflexivity. }
    unfold line_safe in H. pose proof (proj1 (forallb_forall line_char _) H) as H0. clear H. rename H0 into H.
    apply Forall_forall. intros a Ha. apply list_elem_of_In in Ha. specialize (H a Ha).
    unfold line_char in H. apply andb_true_iff in H as [H1 H2].
    apply negb_true_iff, Ascii.eqb_neq in H1, H2. auto.
Qed.

Lemma sent_from_cons n c q a acts :
  sent_from n c q (a :: acts) = (out a c ++ sent_from (next_n a n) (next_c a n c q) q acts)%list.
Proof. destruct a; reflexivity. Qed.

Lemma fold_put_lookup x qs m q :
  NoDup qs ->
  queue_items (fold_left (put x) qs m) !! q =
  if bool_decide (q ∈ qs) then Some (default [] (queue_items m !! q) ++ [x])%list
  else queue_items m !! q.
Proof.
  revert m. induction qs as [|q' qs IH]; intros m Hnd; cbn [fold_left].
  - rewrite bool_decide_eq_false_2; [reflexivity | apply not_elem_of_nil].
  - inversion Hnd as [|? ? Hnotin Hnd']; subst.
    rewrite IH by exact Hnd'. unfold put. cbn [queue_items].
    destruct (decide (q = q')) as [->|Hne].
    + rewrite bool_decide_eq_false_2 by exact Hnotin.
      rewrite bool_decide_eq_true_2 by (apply elem_of_cons; left; reflexivity).
      rewrite lookup_insert_eq. reflexivity.
    + rewrite !lookup_insert_ne by congruence.
      rewrite (bool_decide_ext (q ∈ q' :: qs) (q ∈ qs)); [reflexivity|].
      rewrite elem_of_cons. tauto.
Qed.

Lemma broadcast_fold m code e :
  broadcast m code e = fold_left (put (Some (sse_message e))) (conns m code) m.
Proof. unfold broadcast, conns. destruct (_connections m !! code); reflexivity. Qed.

Lemma close_game_fold m code :
  close_game m code = fold_left (put None) (conns m code) m.
Proof. unfold close_game, conns. destruct (_connections m !! code); reflexivity. Qed.

Lemma nodup_streams_of l code : NoDup (map fst l) -> NoDup (streams_of l code).
Proof.
  induction l as [|[q c] l IH]; intros Hnd; [constructor|].
  inversion Hnd as [|? ? Hnotin Hnd']; subst.
  rewrite SSEFacts.streams_of_cons. destruct (String.eqb c code); [|auto].
  constructor; [|auto]. intros Hin. apply Hnotin.
  apply list_elem_of_In, SSEFacts.in_streams_of in Hin.
  apply list_elem_of_In, in_map_iff. exists (q, code). auto.
Qed.

(** Under the invariant, what a fold of [put] over a code's streams
    does to the queue of [q]. *)
Lemma conns_put_lookup s x code q :
  Props.sse_inv s ->
  queue_items (fold_left (put x) (conns (mgr s) code) (mgr s)) !! q =
  if bool_decide ((q, code) ∈ live s)
  then Some (default [] (queue_items (mgr s) !! q) ++ [x])%list
  else queue_items (mgr s) !! q.
Proof.
  intros (Hc & Hnd & Hb). destruct (Hc code) as [Hcode _].
  rewrite fold_put_lookup by (rewrite Hcode; apply nodup_streams_of, Hnd).
  rewrite Hcode, (bool_decide_ext _ ((q, code) ∈ live s)); [reflexivity|].
  rewrite !list_elem_of_In. apply SSEFacts.in_streams_of.
Qed.

Lemma find_drop_live q q' l :
  q <> q' ->
  List.find (fun p => Nat.eqb (fst p) q) (drop_live q' l) =
  List.find (fun p => Nat.eqb (fst p) q) l.
Proof.
  intros Hne. induction l as [|[x c] l IH]; [reflexivity|].
  rewrite SSEFacts.drop_live_cons. simpl.
  destruct (Nat.eqb x q') eqn:E1, (Nat.eqb x q) eqn:E2; simpl; rewrite ?E2; auto.
  apply Nat.eqb_eq in E1, E2. congruence.
Qed.

Lemma find_notin q (l : list (qid * string)) :
  ~ In q (map fst l) -> List.find (fun p => Nat.eqb (fst p) q) l = None.
Proof.
  induction l as [|[x c] l IH]; intros H; [reflexivity|]. simpl in *.
  destruct (Nat.eqb x q) eqn:E; [apply Nat.eqb_eq in E; tauto | apply IH; tauto].
Qed.

Lemma find_app_l {A} (f : A -> bool) l l' x :
  List.find f l = Some x -> List.find f (l ++ l')%list = Some x.
Proof.
  induction l as [|y l IH]; simpl; [discriminate|]. destruct (f y); auto.
Qed.

Lemma find_app_notin q (l l' : list (qid * string)) :
  ~ In q (map fst l) ->
  List.find (fun p => Nat.eqb (fst p) q) (l ++ l')%list = List.find (fun p => Nat.eqb (fst p) q) l'.
Proof.
  induction l as [|[x c] l IH]; intros H; [reflexivity|]. simpl in *.
  destruct (Nat.eqb x q) eqn:E; [apply Nat.eqb_eq in E; tauto | apply IH; tauto].
Qed.

Lemma live_code_some s q code : live_code s q = Some code -> In q (map fst (live s)).
Proof.
  intros H. apply SSEFacts.live_code_in in H. apply in_map_iff. exists (q, code). auto.
Qed.

Lemma live_code_lt s q code : Props.sse_inv s -> live_code s q = Some code -> q < fresh s.
Proof.
  intros (_ & _ & Hb) H. apply SSEFacts.live_code_in in H.
  exact (proj1 (List.Forall_forall _ _) Hb _ H).
Qed.

Lemma notin_drop_live q q' (l : list (qid * string)) :
  ~ In q (map fst l) -> ~ In q (map fst (drop_live q' l)).
Proof.
  intros H Hin. apply H. apply in_map_iff in Hin as [p [Hp Hin]].
  unfold drop_live in Hin. apply filter_In in Hin as [Hin _].
  apply in_map_iff. eauto.
Qed.

Lemma drop_live_self q (l : list (qid * string)) : ~ In q (map fst (drop_live q l)).
Proof.
  intros Hin. apply in_map_iff in Hin as [[x c] [Hx Hin]]. simpl in Hx. subst x.
  unfold drop_live in Hin. apply filter_In in Hin as [_ Hq]. simpl in Hq.
  rewrite Nat.eqb_refl in Hq. discriminate.
Qed.

Lemma end_stream_spec s q code s' :
  end_stream s q code = Some s' ->
  queue_items (mgr s') = queue_items (mgr s) /\ live s' = drop_live q (live s) /\
  fresh s' = fresh s /\ delivered s' = delivered s.
Proof.
  unfold end_stream, subscribe_finally.
  destruct (list_remove q (conns (mgr s) code)); simpl; [|discriminate].
  intros H. injection H as <-. split_and!; reflexivity.
Qed.

Lemma received_snoc s m l f q q' msg :
  received (mkSys m l f (delivered s ++ [(q', msg)])%list) q =
  (received s q ++ (if Nat.eqb q' q then [msg] else []))%list.
Proof.
  unfold received. simpl. rewrite List.filter_app, map_app. simpl.
  destruct (Nat.eqb q' q); reflexivity.
Qed.

(** A step that leaves the stream [q] alone keeps [J]. *)
Lemma J_same q s s' n c P :
  J q s n c P -> Props.sse_inv s' ->
  live_code s' q = live_code s q ->
  (~ In q (map fst (live s)) -> ~ In q (map fst (live s'))) ->
  fresh s' = fresh s -> received s' q = received s q ->
  queue_items (mgr s') !! q = queue_items (mgr s) !! q ->
  J q s' n c P.
Proof.
  intros (Hinv & Hf & HN & HS) Hinv' Hl Hin Hf' Hr Hq.
  split_and!; [exact Hinv' | congruence | |].
  - intros Hc. rewrite Hr. exact (HN Hc).
  - intros code Hc. destruct (HS code Hc) as [Hlt [[H1 H2]|[H1 H2]]]; split; [exact Hlt| |exact Hlt|].
    + left. rewrite Hl, Hr, Hq. auto.
    + right. rewrite Hr. auto.
Qed.

(** [broadcast] and [close_game] put [x] into the queue of [q] when [q]
    is a live stream of [code]. *)
Lemma J_put q s s' n c P code x :
  J q s n c P -> Props.sse_inv s' ->
  live s' = live s -> fresh s' = fresh s -> delivered s' = delivered s ->
  queue_items (mgr s') !! q =
    (if bool_decide ((q, code) ∈ live s)
     then Some (default [] (queue_items (mgr s) !! q) ++ [x])%list
     else queue_items (mgr s) !! q) ->
  J q s' n c (P ++ (if bool_decide (c = Some code) then [x] else []))%list.
Proof.
  intros (Hinv & Hf & HN & HS) Hinv' Hl Hf' Hd Hq.
  assert (received s' q = received s q) as Hr by (unfold received; rewrite Hd; reflexivity).
  assert (live_code s' q = live_code s q) as Hlc by (unfold live_code; rewrite Hl; reflexivity).
  split_and!; [exact Hinv' | congruence | |].
  - intros ->. destruct (HN eq_refl) as (Hle & H1 & ->). rewrite Hr.
    rewrite bool_decide_eq_false_2 by discriminate. auto.
  - intros code1 ->. destruct (HS code1 eq_refl) as [Hlt [[H1 H2]|[H1 H2]]];
      split; try exact Hlt.
    + left. rewrite Hlc, Hr, Hq. split; [exact H1|].
      pose proof (SSEFacts.live_code_in _ _ _ H1) as Hin.
      destruct (decide (code = code1)) as [->|Hne].
      * rewrite !bool_decide_eq_true_2 by (try reflexivity; apply list_elem_of_In; exact Hin).
        simpl. rewrite <- H2, <- app_assoc. reflexivity.
      * rewrite !bool_decide_eq_false_2; [rewrite app_nil_r; exact H2 | congruence |].
        rewrite list_elem_of_In. intros Hin'.
        destruct Hinv as (_ & Hnd & _).
        exact (Hne (SSEFacts.nodup_same_key _ _ _ _ Hnd Hin' Hin)).
    + right. rewrite Hl, Hr. split; [exact H1|].
      apply prefix_app_r. exact H2.
Qed.

Lemma J_step q s n c P a :
  J q s n c P ->
  exists s', step s a = Some s' /\ J q s' (next_n a n) (next_c a n c q) (P ++ out a c)%list.
Proof.
  intros HJ. pose proof HJ as (Hinv & Hf & HN & HS).
  destruct (SSEFacts.step_inv s a Hinv) as (s' & Hs' & Hinv').
  exists s'. split; [exact Hs'|].
  destruct a as [code | q' | q' | code e | code]; unfold step in Hs'.
  - (* Subscribe *)
    injection Hs' as <-. cbn [next_n next_c out]. rewrite app_nil_r.
    destruct (Nat.eqb n q) eqn:Eq.
    + apply Nat.eqb_eq in Eq. subst q.
      destruct c as [code1|]; [destruct (HS code1 eq_refl) as [Hlt _]; lia|].
      destruct (HN eq_refl) as (_ & Hr & ->).
      split_and!; [exact Hinv' | simpl; congruence | discriminate |].
      intros code1 Hc. injection Hc as <-. split; [lia|]. left. split.
      * unfold live_code. simpl. rewrite find_app_notin; [simpl; rewrite Hf, Nat.eqb_refl; reflexivity|].
        destruct Hinv as (_ & _ & Hb). intros Hin. apply in_map_iff in Hin as [[x y] [Hx Hin]].
        simpl in Hx. subst x. pose proof (proj1 (List.Forall_forall _ _) Hb _ Hin). simpl in *. lia.
      * unfold received in *. simpl in *. rewrite Hr, Hf, lookup_insert_eq. reflexivity.
    + apply Nat.eqb_neq in Eq.
      split_and!; [exact Hinv' | simpl; congruence | |].
      * intros Hc. destruct (HN Hc) as (Hle & Hr & HP). split; [lia | auto].
      * intros code1 Hc. destruct (HS code1 Hc) as [Hlt [[H1 H2]|[H1 H2]]]; split; try lia.
        -- left. split.
           ++ unfold live_code in *. simpl.
              destruct (List.find _ (live s)) as [p|] eqn:Ef; [|discriminate].
              rewrite (find_app_l _ _ _ _ Ef). exact H1.
           ++ unfold received in *. simpl. rewrite lookup_insert_ne by congruence. exact H2.
        -- right. split; [|exact H2]. simpl. rewrite map_app. simpl.
           intros Hin. apply in_app_or in Hin as [Hin|[Hin|[]]]; [tauto | congruence].
  - (* Next *)
    cbn [next_n next_c out]. rewrite app_nil_r.
    destruct (live_code s q') as [code0|] eqn:Hl; [|injection Hs' as <-; exact HJ].
    pose proof (live_code_lt s q' code0 Hinv Hl) as Hlt'.
    destruct (queue_items (mgr s) !! q') as [[|[msg|] rest]|] eqn:Hq;
      try (injection Hs' as <-; exact HJ).
    + injection Hs' as <-.
      destruct (decide (q' = q)) as [->|Hne].
      * destruct c as [code1|]; [|destruct (HN eq_refl) as [Hle _]; lia].
        destruct (HS code1 eq_refl) as [Hlt [[H1 H2]|[H1 H2]]];
          [|exfalso; exact (H1 (live_code_some _ _ _ Hl))].
        rewrite Hl in H1. injection H1 as <-.
        split_and!; [exact Hinv' | exact Hf | discriminate |].
        intros code1 Hc. injection Hc as <-. split; [exact Hlt|]. left. split; [exact Hl|].
        rewrite received_snoc, Nat.eqb_refl. simpl. rewrite lookup_insert_eq.
        rewrite Hq in H2. simpl in H2. rewrite map_app, <- app_assoc. exact H2.
      * apply (J_same q s _ n c P HJ Hinv'); try reflexivity.
        -- auto.
        -- rewrite received_snoc. apply Nat.eqb_neq in Hne. rewrite Hne, app_nil_r. reflexivity.
        -- simpl. rewrite lookup_insert_ne by congruence. reflexivity.
    + apply end_stream_spec in Hs' as (Hq' & Hl' & Hf' & Hd'). simpl in Hq', Hl', Hf', Hd'.
      assert (received s' q = received s q) as Hr by (unfold received; rewrite Hd'; reflexivity).
      destruct (decide (q' = q)) as [->|Hne].
      * destruct c as [code1|]; [|destruct (HN eq_refl) as [Hle _]; lia].
        destruct (HS code1 eq_refl) as [Hlt [[H1 H2]|[H1 H2]]];
          [|exfalso; exact (H1 (live_code_some _ _ _ Hl))].
        split_and!; [exact Hinv' | congruence | discriminate |].
        intros code2 Hc. injection Hc as <-. split; [exact Hlt|]. right. split.
        -- rewrite Hl'. apply drop_live_self.
        -- rewrite Hr, <- H2, Hq. apply prefix_app_r. reflexivity.
      * apply (J_same q s _ n c P HJ Hinv').
        -- unfold live_code. rewrite Hl'. rewrite find_drop_live by congruence. reflexivity.
        -- rewrite Hl'. apply notin_drop_live.
        -- exact Hf'.
        -- exact Hr.
        -- rewrite Hq'. rewrite lookup_insert_ne by congruence. reflexivity.
  - (* Disconnect *)
    cbn [next_n next_c out]. rewrite app_nil_r.
    destruct (live_code s q') as [code0|] eqn:Hl; [|injection Hs' as <-; exact HJ].
    pose proof (live_code_lt s q' code0 Hinv Hl) as Hlt'.
    apply end_stream_spec in Hs' as (Hq' & Hl' & Hf' & Hd').
    assert (received s' q = received s q) as Hr by (unfold received; rewrite Hd'; reflexivity).
    destruct (decide (q' = q)) as [->|Hne].
    + destruct c as [code1|]; [|destruct (HN eq_refl) as [Hle _]; lia].
      destruct (HS code1 eq_refl) as [Hlt [[H1 H2]|[H1 H2]]];
        [|exfalso; exact (H1 (live_code_some _ _ _ Hl))].
      split_and!; [exact Hinv' | congruence | discriminate |].
      intros code2 Hc. injection Hc as <-. split; [exact Hlt|]. right. split.
      * rewrite Hl'. apply drop_live_self.
      * rewrite Hr, <- H2. apply prefix_app_r. reflexivity.
    + apply (J_same q s _ n c P HJ Hinv').
      * unfold live_code. rewrite Hl'. rewrite find_drop_live by congruence. reflexivity.
      * rewrite Hl'. apply notin_drop_live.
      * exact Hf'.
      * exact Hr.
      * rewrite Hq'. reflexivity.
  - (* Broadcast *)
    injection Hs' as <-. cbn [next_n next_c out].
    apply (J_put q s _ n c P code (Some (sse_message e)) HJ Hinv'); try reflexivity.
    simpl. rewrite broadcast_fold. apply conns_put_lookup, Hinv.
  - (* CloseGame *)
    injection Hs' as <-. cbn [next_n next_c out].
    apply (J_put q s _ n c P code None HJ Hinv'); try reflexivity.
    simpl. rewrite close_game_fold. apply conns_put_lookup, Hinv.
Qed.

Lemma J_run q acts : forall s n c P,
  J q s n c P ->
  exists s', run s acts = Some s' /\ exists n' c', J q s' n' c' (P ++ sent_from n c q acts)%list.
Proof.
  induction acts as [|a acts IH]; intros s n c P HJ.
  - exists s. split; [reflexivity|]. exists n, c. rewrite app_nil_r. exact HJ.
  - destruct (J_step q s n c P a HJ) as (s1 & Hs1 & HJ1).
    destruct (IH _ _ _ _ HJ1) as (s' & Hrun & n' & c' & HJ').
    exists s'. split; [cbn [run]; rewrite Hs1; exact Hrun|].
    exists n', c'. rewrite sent_from_cons, app_assoc. exact HJ'.
Qed.

(** X13: over any run of subscribes, broadcasts, game closes and stream steps, what a stream has yielded is, in order, a prefix of the messages and close signals put for its game after it subscribed; while it is live, what it yielded followed by what waits in its queue is exactly that sequence. *)
Theorem streams_deliver_their_games_messages_in_order acts q :
  exists s, run sys_init acts = Some s /\
    map Some (received s q) `prefix_of` sent q acts /\
    (forall code, live_code s q = Some code ->
       (map Some (received s q) ++ default [] (queue_items (mgr s) !! q))%list = sent q acts).
Proof.
  assert (J q sys_init 0 None []) as H0.
  { split_and!; [exact SSEFacts.sys_init_inv | reflexivity | | discriminate].
    intros _. split_and!; [lia | reflexivity | reflexivity]. }
  destruct (J_run q acts _ _ _ _ H0) as (s & Hrun & n & c & (Hinv & Hf & HN & HS)).
  exists s. split; [exact Hrun|]. simpl in HN, HS. fold (sent q acts) in HN, HS.
  destruct c as [code1|].
  - destruct (HS code1 eq_refl) as [Hlt [[H1 H2]|[H1 H2]]].
    + split.
      * rewrite <- H2. apply prefix_app_r. reflexivity.
      * intros code Hc. exact H2.
    + split; [exact H2|].
      intros code Hc. exfalso. exact (H1 (live_code_some _ _ _ Hc)).
  - destruct (HN eq_refl) as (Hle & Hr & HP). rewrite Hr, <- HP. split.
    + apply prefix_nil.
    + intros code Hc. pose proof (live_code_lt _ _ _ Hinv Hc). lia.
Qed.

End SSEMoreFacts.

Module ParserMoreFacts.
Import Re ParserProps.

Lemma m_nogrp {R} r : nogrp r = true -> forall s c (k : list ascii -> caps -> option R) x,
  m r s c k = Some x -> exists s', k s' c = Some x.
Proof.
  induction r as [p|r1 IH1 r2 IH2|r1 IH1 r2 IH2| |lz p|n r IH| |]; intros Hg s c k x H;
    simpl in Hg; try discriminate.
  - simpl in H. destruct s as [|a s]; [discriminate|]. destruct (p a); [eauto|discriminate].
  - apply andb_true_iff in Hg as [G1 G2]. simpl in H.
    destruct (IH1 G1 _ _ _ _ H) as [s1 H1]. exact (IH2 G2 _ _ _ _ H1).
  - apply andb_true_iff in Hg as [G1 G2]. simpl in H.
    destruct (m r1 s c k) eqn:E.
    + injection H as ->. exact (IH1 G1 _ _ _ _ E).
    + exact (IH2 G2 _ _ _ _ H).
  - simpl in H. eauto.
  - destruct (ParserFacts.m_star_inv _ _ _ _ _ _ H) as (pre & s' & _ & _ & Hk). eauto.
  - simpl in H. destruct s as [|a [|b s]]; [eauto| |discriminate].
    destruct (Ascii.eqb a Py.nl); [eauto|discriminate].
  - simpl in H. destruct s; [eauto|discriminate].
Qed.

Lemma m_lit_nogrp l : nogrp (lit_l true l) = true.
Proof. induction l as [|a l IH]; [reflexivity|]. simpl. exact IH. Qed.

Lemma lstrip_suffix l : exists pre, l = (pre ++ Py.lstrip l)%list.
Proof.
  induction l as [|a l IH]; simpl; [exists []; reflexivity|].
  destruct (Py.is_space a).
  - destruct IH as [pre Hp]. exists (a :: pre). simpl. f_equal. exact Hp.
  - exists []. reflexivity.
Qed.

Lemma Forall_lstrip (P : ascii -> Prop) l : Forall P l -> Forall P (Py.lstrip l).
Proof.
  intros H. destruct (lstrip_suffix l) as [pre Hp]. rewrite Hp in H.
  apply Forall_app in H. tauto.
Qed.

Lemma Forall_strip (P : ascii -> Prop) l : Forall P l -> Forall P (Py.strip l).
Proof.
  intros H. unfold Py.strip. apply Forall_rev, Forall_lstrip, Forall_rev, Forall_lstrip, H.
Qed.

(** A field captured by [LABEL:\s*(.+?)TAIL] is one line. *)
Lemma extract_line_field L tail text v :
  nogrp tail = true ->
  LLM.extract_field (Seq (lit true L) (Seq (Star false space) (Seq (Grp 1 (plus_lazy dot)) tail)))
    text = Some v ->
  Forall (fun a => a <> Py.nl) (Py.to_list v).
Proof.
  intros Hg. unfold LLM.extract_field.
  destruct (search _ (Py.to_list text)) as [c|] eqn:Hs; [|discriminate].
  destruct (ParserFacts.search_inv _ _ _ Hs) as [i Hi]. clear Hs.
  unfold match_ in Hi. cbn [m] in Hi. unfold lit in Hi.
  destruct (m_nogrp _ (m_lit_nogrp (Py.to_list L)) _ _ _ _ Hi) as [s1 H1]. clear Hi.
  destruct (ParserFacts.star_greedy_inv _ _ _ _ H1) as (pre2 & s2 & _ & _ & H2). clear H1.
  unfold plus_lazy in H2. cbn [m] in H2.
  destruct s2 as [|a s4]; [discriminate|].
  destruct (dot a) eqn:Ha; [|discriminate].
  destruct (ParserFacts.star_lazy_inv _ _ _ _ H2) as (pre3 & s3 & -> & Hf & H3). clear H2.
  destruct (m_nogrp _ Hg _ _ _ _ H3) as [s5 H5]. injection H5 as <-. simpl.
  replace (S (length (pre3 ++ s3)) - length s3) with (S (length pre3))
    by (rewrite length_app; lia).
  simpl. rewrite ParserFacts.firstn_length_app.
  intros Hv. injection Hv as <-. unfold Py.to_list, Py.of_list.
  rewrite list_ascii_of_string_of_list_ascii.
  apply Forall_strip. constructor.
  - unfold dot in Ha. apply negb_true_iff, Ascii.eqb_neq in Ha. exact Ha.
  - eapply Forall_impl; [exact Hf|]. intros b Hb. unfold dot in Hb.
    apply negb_true_iff, Ascii.eqb_neq in Hb. exact Hb.
Qed.

(** X14: the move, comment and commentary fields that [parse_chess_response] extracts never contain a newline character (LF); the pattern's [.] stops at LF only, so a carriage return can remain inside a field. *)
Theorem parsed_text_fields_are_single_lines text :
  forall v, (LLM.move (fst (LLM.parse_chess_response text)) = Some v \/
             LLM.comment (fst (LLM.parse_chess_response text)) = Some v \/
             LLM.commentary (fst (LLM.parse_chess_response text)) = Some v) ->
  Forall (fun a => a <> Py.nl) (Py.to_list v).
Proof.
  intros v. unfold LLM.parse_chess_response. cbv zeta.
  destruct (LLM.validate_emotion "my_emotion" _) as [me w1].
  destruct (LLM.validate_emotion "opponent_emotion" _) as [oe w2]. simpl.
  intros [H|[H|H]]; eapply extract_line_field; [|exact H| |exact H| |exact H]; reflexivity.
Qed.

Lemma parsed_text_fields_are_single_lines_witness :
  LLM.comment (fst (LLM.parse_chess_response ("MOVE: e4" ++ String Py.nl "COMMENT: bold"))) =
    Some "bold" /\ Forall (fun a => a <> Py.nl) (Py.to_list "bold").
Proof.
  assert (H : LLM.comment (fst (LLM.parse_chess_response
                 ("MOVE: e4" ++ String Py.nl "COMMENT: bold"))) = Some "bold")
    by (vm_compute; reflexivity).
  split; [exact H|].
  exact (parsed_text_fields_are_single_lines _ _ (or_intror (or_introl H))).
Defined.

End ParserMoreFacts.
